(** * The prevailing-bias engine: alignment, standardisation and weighted
      combination of bias components

    A shallow embedding of the numerical core of the [prevailing_bias]
    package: the two [_zscore] helpers, [align_and_standardize],
    [compute_prevailing_bias], [rolling_trend_slope],
    [position_in_52w_range], [dummy_options_bias],
    [aggregate_daily_sentiment], [combine_sentiment_scores],
    [compute_polymarket_bias], [bias_fragility] and
    [compute_polymarket_divergence], together with the part of pandas and
    numpy they rely on.

    Numbers.  A Python float is modelled as [value = option Qc]: an exact
    rational, or [NaN] (pandas' marker of a missing entry).  Arithmetic is
    exact (no rounding) and propagates [NaN] as IEEE arithmetic does; the
    infinities are not represented, and a division by zero gives [NaN] (every
    division of the modelled code either is guarded by a test against zero or
    divides a zero numerator).  The two functions that leave the rationals,
    [np.sqrt] and [np.log], are parameters of the definitions that call
    them.  Exact arithmetic and double precision part where a test compares
    a rounded number with 0: the standard deviation of an all-equal series is
    0 exactly but need not be 0 once rounded.  The z-score rule is therefore
    stated over a second embedding of the two [_zscore], in IEEE 754
    binary64 numbers.

    Tables.  A [Series] is a named list of (date, value) items, a
    [DataFrame] a list of column labels and a list of rows, each row a date
    and one value per column; an operation that pandas applies to a whole
    column at once is written row by row.  Dates are day numbers.  Following
    the data model, the index of a series is taken strictly increasing. *)

From Stdlib Require Import QArith Qcanon ZArith Lia Floats.
From stdpp Require Import gmap strings list numbers sorting pretty.

Local Open Scope Qc_scope.

(** ** Floats *)

Definition date := Z.
Definition value := option Qc.
Abbreviation NaN := (@None Qc).

Definition fin (q : Q) : value := Some (Q2Qc q).
Definition of_Z (n : Z) : value := Some (Qc_of_Z n).
Definition of_nat (n : nat) : value := of_Z (Z.of_nat n).

Definition fadd (a b : value) : value :=
  match a, b with Some x, Some y => Some (x + y) | _, _ => NaN end.
Definition fsub (a b : value) : value :=
  match a, b with Some x, Some y => Some (x - y) | _, _ => NaN end.
Definition fmul (a b : value) : value :=
  match a, b with Some x, Some y => Some (x * y) | _, _ => NaN end.
Definition fdiv (a b : value) : value :=
  match a, b with
  | Some x, Some y => if decide (y = 0) then NaN else Some (x / y)
  | _, _ => NaN
  end.

(** [a == 0] and [a != 0]: a comparison with [NaN] is false, so [NaN != 0]
    is true. *)
Definition feq0 (a : value) : bool := bool_decide (a = Some 0).
Definition fne0 (a : value) : bool := negb (feq0 a).
(** [pd.isna], [np.isnan] on a scalar. *)
Definition isnan (a : value) : bool :=
  match a with None => true | Some _ => false end.

(** The builtin [sum] of Python: a left fold from the integer 0. *)
Definition py_sum (l : list value) : value := foldl fadd (Some 0) l.

(** Exceptions, and results of functions that may raise.  A [ValueError]
    carries its message and the set that the message formats, if any. *)
Inductive exn := ValueError (msg : string) (fields : gset string).
Inductive result (A : Type) := Ok (a : A) | Raise (e : exn).
Arguments Ok {A} a.
Arguments Raise {A} e.

#[global] Instance exn_eq_dec : EqDecision exn.
Proof. solve_decision. Defined.
#[global] Instance result_eq_dec {A : Type} `{EqDecision A} : EqDecision (result A).
Proof. solve_decision. Defined.

(** ** numpy *)

Module np.
(** [np.sum] of a float array: any [NaN] makes the sum [NaN]. *)
Definition sum (a : list value) : value := foldl fadd (Some 0) a.
(** [a.mean()]: the sum over the length; [NaN] on an empty array. *)
Definition mean (a : list value) : value := fdiv (sum a) (of_nat (length a)).
(** [np.arange(n)]: 0, 1, ..., n-1, and nothing when [n <= 0]. *)
Definition arange (n : Z) : list value := map of_nat (seq 0 (Z.to_nat n)).
End np.

(** ** pandas *)

Record Series := mkSeries { name : option string; items : list (date * value) }.

Record DataFrame := mkDataFrame {
  columns : list (option string);
  rows : list (date * list value)
}.

#[global] Instance Series_eq_dec : EqDecision Series.
Proof. solve_decision. Defined.
#[global] Instance DataFrame_eq_dec : EqDecision DataFrame.
Proof. solve_decision. Defined.

Module pd.
Definition index (s : Series) : list date := (items s).*1.
Definition values (s : Series) : list value := (items s).*2.
(** [s.empty] *)
Definition empty (s : Series) : bool := bool_decide (items s = []).
(** [s.rename(n)] *)
Definition rename (s : Series) (n : string) : Series := mkSeries (Some n) (items s).
(** [pd.Series(dtype=float, name=n)] *)
Definition Series_empty (n : option string) : Series := mkSeries n [].
(** [pd.Series(v, index=idx, name=n)] for a scalar [v]. *)
Definition Series_const (v : value) (idx : list date) (n : option string) : Series :=
  mkSeries n (map (λ d, (d, v)) idx).
(** An elementwise operation with a scalar keeps the index and the name. *)
Definition map_values (f : value → value) (s : Series) : Series :=
  mkSeries (name s) (map (λ it, (it.1, f it.2)) (items s)).

(** The entry at a date, [NaN] where the index lacks the date (as
    reindexing to a wider index fills it). *)
Fixpoint lookup_date (d : date) (l : list (date * value)) : value :=
  match l with
  | [] => NaN
  | it :: l' => if decide (d = it.1) then it.2 else lookup_date d l'
  end.
Definition reindex (s : Series) (idx : list date) : Series :=
  mkSeries (name s) (map (λ d, (d, lookup_date d (items s))) idx).

(** The union of two increasing indexes, increasing again (the index of an
    outer join). *)
Fixpoint union_index (a : list date) : list date → list date :=
  fix go (b : list date) : list date :=
    match a, b with
    | [], _ => b
    | _, [] => a
    | x :: a', y :: b' =>
        if decide (x < y)%Z then x :: union_index a' b
        else if decide (y < x)%Z then y :: go b'
        else x :: union_index a' b'
    end.

(** [s.fillna(v)] *)
Definition fillna (s : Series) (v : value) : Series :=
  map_values (λ w, if isnan w then v else w) s.
(** [a + b] on two series: entries are matched by date over the union of
    the indexes. *)
Definition add (a b : Series) : Series :=
  mkSeries None
    (map (λ d, (d, fadd (lookup_date d (items a)) (lookup_date d (items b))))
         (union_index (index a) (index b))).
Definition sub (a b : Series) : Series :=
  mkSeries None
    (map (λ d, (d, fsub (lookup_date d (items a)) (lookup_date d (items b))))
         (union_index (index a) (index b))).

(** Reductions skip missing entries ([skipna=True]). *)
Definition dropna (l : list value) : list Qc := omap id l.
Definition qsum (l : list Qc) : Qc := foldr Qcplus 0 l.
(** [mean()]: sum over count of the defined entries; [NaN] if there are
    none.  Exact: the mean of equal entries is that entry, where the rounded
    mean of [pd64.mean_values] can be one unit in the last place off. *)
Definition mean_values (l : list value) : value :=
  let xs := dropna l in
  fdiv (Some (qsum xs)) (of_nat (length xs)).
(** The population variance ([ddof=0]) of the defined entries: the mean of
    the squared deviations from their mean; [NaN] if there are none.  Exact:
    equal entries have the variance 0 here, and need not have it in double
    precision; what the test [std == 0] does on them is settled on
    [pd64.std_values]. *)
Definition var_values (l : list value) : value :=
  let xs := dropna l in
  match mean_values l with
  | Some avg =>
      fdiv (Some (qsum (map (λ x, (avg - x) * (avg - x)) xs))) (of_nat (length xs))
  | None => NaN
  end.
Definition mean (s : Series) : value := mean_values (values s).

Section with_sqrt.
Variable np_sqrt : value → value.
(** [std(ddof=0)]: the square root of the population variance. *)
Definition std_values (l : list value) : value := np_sqrt (var_values l).
Definition std (s : Series) : value := std_values (values s).
End with_sqrt.

(** [s.rolling(window=window, min_periods=min_periods).mean()]: at each
    position the mean of the defined entries among the last [window] ones,
    [NaN] when fewer than [min_periods] of them are defined. *)
Definition rolling_mean (window min_periods : Z) (s : Series) : Series :=
  mkSeries (name s)
    (imap (λ i it,
       let start := Z.to_nat (Z.of_nat i + 1 - window) in
       let w := take (S i - start) (drop start (values s)) in
       (it.1, if bool_decide (min_periods ≤ Z.of_nat (length (dropna w)))%Z
              then mean_values w else NaN))
     (items s)).

(** [pd.DataFrame()] *)
Definition DataFrame_new : DataFrame := mkDataFrame [] [].
(** [df.empty]: some axis has length 0. *)
Definition DataFrame_empty (df : DataFrame) : bool :=
  bool_decide (columns df = []) || bool_decide (rows df = []).
(** [col in df.columns] *)
Definition has_column (df : DataFrame) (col : string) : bool :=
  bool_decide (Some col ∈ columns df).
(** The entry of a row in the column labelled [col]. *)
Definition cell (df : DataFrame) (r : list value) (col : string) : value :=
  match list_find (λ c, c = Some col) (columns df) with
  | Some (k, _) => default NaN (r !! k)
  | None => NaN
  end.
(** [df[col]] *)
Definition column (df : DataFrame) (col : string) : Series :=
  mkSeries (Some col) (map (λ r, (r.1, cell df r.2 col)) (rows df)).
(** [df.assign(col=...)], the new column given row by row: it replaces a
    column of that label, or comes last. *)
Definition assign (df : DataFrame) (col : string) (f : list value → value) : DataFrame :=
  match list_find (λ c, c = Some col) (columns df) with
  | Some (k, _) =>
      mkDataFrame (columns df) (map (λ r, (r.1, <[k := f r.2]> r.2)) (rows df))
  | None =>
      mkDataFrame (columns df ++ [Some col]) (map (λ r, (r.1, r.2 ++ [f r.2])) (rows df))
  end.

(** The index of [pd.concat(objs, axis=1, join="inner")]: the dates of the
    first index that every other index has. *)
Definition inner_index (objs : list Series) : list date :=
  match objs with
  | [] => []
  | s :: rest => filter (λ d, Forall (λ o, d ∈ index o) rest) (index s)
  end.
(** [pd.concat(objs, axis=1, join="inner")]: one column per series, labelled
    by its name. *)
Definition concat_inner (objs : list Series) : DataFrame :=
  mkDataFrame (map name objs)
    (map (λ d, (d, map (λ o, lookup_date d (items o)) objs)) (inner_index objs)).
(** [df.dropna(how="all")]: the rows whose entries are all missing go. *)
Definition dropna_all (df : DataFrame) : DataFrame :=
  mkDataFrame (columns df)
    (filter (λ r, ¬ Forall (λ v, v = NaN) r.2) (rows df)).

(** The entries a rolling window of [window] positions sees at position
    [i]: the last [window] ones up to [i], fewer near the start. *)
Definition window_at (window : Z) (l : list value) (i : nat) : list value :=
  let start := Z.to_nat (Z.of_nat i + 1 - window) in
  take (S i - start) (drop start l).
(** [s.rolling(window=window, min_periods=min_periods)] followed by an
    aggregation: at each position the aggregate of its window, [NaN] when
    the window has fewer than [min_periods] defined entries. *)
Definition rolling (agg : list value → value) (window min_periods : Z)
    (s : Series) : Series :=
  mkSeries (name s)
    (imap (λ i it,
       let w := window_at window (values s) i in
       (it.1, if bool_decide (min_periods ≤ Z.of_nat (length (dropna w)))%Z
              then agg w else NaN))
     (items s)).
Definition qmin (a b : Qc) : Qc := if decide (a ≤ b) then a else b.
Definition qmax (a b : Qc) : Qc := if decide (a ≤ b) then b else a.
(** [min()] and [max()]: of the defined entries; [NaN] if there are none. *)
Definition min_values (l : list value) : value :=
  match dropna l with [] => NaN | x :: xs => Some (foldr qmin x xs) end.
Definition max_values (l : list value) : value :=
  match dropna l with [] => NaN | x :: xs => Some (foldr qmax x xs) end.
(** An arithmetic operation on two series that carry the same index: entry
    by entry, without any alignment. *)
Definition same_index (f : value → value → value) (a b : Series) : Series :=
  mkSeries None (zip_with (λ x y, (x.1, f x.2 y.2)) (items a) (items b)).
(** The index of [pd.concat(objs, axis=1)], an outer join: the union of the
    increasing indexes. *)
Definition outer_index (objs : list Series) : list date :=
  match objs with
  | [] => []
  | s :: rest => foldl (λ acc o, union_index acc (index o)) (index s) rest
  end.
(** [pd.concat(objs, axis=1)], an outer join: one column per series, over
    the union of the indexes; a series has no entry at a date it lacks. *)
Definition concat_outer (objs : list Series) : DataFrame :=
  mkDataFrame (map name objs)
    (map (λ d, (d, map (λ o, lookup_date d (items o)) objs)) (outer_index objs)).
(** The entries of the column at position [k]. *)
Definition column_at (df : DataFrame) (k : nat) : list value :=
  map (λ r, default NaN (r.2 !! k)) (rows df).
(** An operation that a table carries out column by column: each entry is
    transformed with the entries of its own column. *)
Definition by_column (f : list value → value → value) (df : DataFrame) : DataFrame :=
  mkDataFrame (columns df)
    (map (λ r, (r.1, imap (λ k v, f (column_at df k) v) r.2)) (rows df)).
(** What [rolling(window=window, min_periods=min_periods)] checks before it
    makes a window. *)
Definition rolling_validate (window min_periods : Z) : result unit :=
  if bool_decide (min_periods < 0)%Z then
    Raise (ValueError "min_periods must be >= 0" ∅)
  else if bool_decide (window < min_periods)%Z then
    Raise (ValueError ("min_periods " +:+ pretty min_periods
                       +:+ " must be <= window " +:+ pretty window) ∅)
  else if bool_decide (window < 0)%Z then
    Raise (ValueError "window must be an integer 0 or greater" ∅)
  else Ok ().
(** [df.rolling(window=window, min_periods=min_periods)] followed by an
    aggregation: the rolling aggregate of each column. *)
Definition rolling_columns (agg : list value → value) (window min_periods : Z)
    (df : DataFrame) : DataFrame :=
  mkDataFrame (columns df)
    (imap (λ i r,
       (r.1, imap (λ k _,
                let w := window_at window (column_at df k) i in
                if bool_decide (min_periods ≤ Z.of_nat (length (dropna w)))%Z
                then agg w else NaN)
             r.2))
     (rows df)).
(** [df.mean(axis=1)]: the mean of the defined entries of each row. *)
Definition mean_axis1 (df : DataFrame) : Series :=
  mkSeries None (map (λ r, (r.1, mean_values r.2)) (rows df)).
End pd.

(** ** price/price_features.py *)

(** The table handed to the price features: a frame, and whether its index
    is a [DatetimeIndex]. *)
Record PriceFrame := mkPriceFrame { frame : DataFrame; datetime_index : bool }.

Module price_features.

Definition _validate_close (df : PriceFrame) : result Series :=
  if negb (pd.has_column (frame df) "Close") then
    Raise (ValueError "DataFrame must contain 'Close' column" ∅)
  else if negb (datetime_index df) then
    Raise (ValueError "DataFrame index must be DatetimeIndex" ∅)
  else Ok (pd.column (frame df) "Close").

(** The default of [window] in [rolling_trend_slope]. *)
Definition window_default : Z := 60.

(** [a[start:stop]] for [0 <= start]. *)
Definition iloc (a : list value) (start stop : Z) : list value :=
  take (Z.to_nat (stop - start)) (drop (Z.to_nat start) a).

Section with_log.
Variable np_log : value → value.

(** The entry of [slopes] at position [i]. *)
Definition slope_at (log_price : list value) (window : Z) (i : nat) : value :=
  if bool_decide (Z.of_nat i + 1 < window)%Z then NaN
  else
    let y := iloc log_price (Z.of_nat i + 1 - window) (Z.of_nat i + 1) in
    let x := np.arange window in
    let x_mean := np.mean x in
    let y_mean := pd.mean_values y in
    let denom := np.sum (map (λ xi, fmul (fsub xi x_mean) (fsub xi x_mean)) x) in
    let slope :=
      if fne0 denom then
        fdiv (np.sum (zip_with (λ xi yi, fmul (fsub xi x_mean) (fsub yi y_mean)) x y))
             denom
      else NaN in
    fmul slope (of_Z window).

Definition rolling_trend_slope (df : PriceFrame) (window : Z) : result Series :=
  match _validate_close df with
  | Raise e => Raise e
  | Ok close =>
      let log_price := map np_log (pd.values close) in
      let slopes := map (slope_at log_price window) (seq 0 (length log_price)) in
      Ok (mkSeries (Some "rolling_trend_slope") (zip (pd.index close) slopes))
  end.
End with_log.

Section with_sqrt.
Variable np_sqrt : value → value.

Definition _zscore (series : Series) : Series :=
  let mean := pd.mean series in
  let std := pd.std np_sqrt series in
  if feq0 std || isnan std then
    pd.Series_const (Some 0) (pd.index series) None
  else
    pd.map_values (λ v, fdiv (fsub v mean) std) series.
End with_sqrt.

(** [pos.replace([np.inf, -np.inf], np.nan)] changes nothing here: a
    division by zero is [NaN] already. *)
Definition position_in_52w_range (df : PriceFrame) : result Series :=
  match _validate_close df with
  | Raise e => Raise e
  | Ok close =>
      let rolling_min := pd.rolling pd.min_values 252 126 close in
      let rolling_max := pd.rolling pd.max_values 252 126 close in
      let range_span := pd.same_index fsub rolling_max rolling_min in
      let pos := pd.same_index fdiv (pd.same_index fsub close rolling_min) range_span in
      Ok (pd.rename pos "position_in_52w_range")
  end.

End price_features.

(** ** options/options_features.py *)

Module options_features.
Definition dummy_options_bias (index : list date) : Series :=
  pd.Series_const (Some 0) index (Some "options_bias").
End options_features.

(** ** model/prevailing_bias_model.py *)

Module prevailing_bias_model.
Section with_sqrt.
Variable np_sqrt : value → value.

Definition _zscore (series : option Series) (name : string) : Series :=
  match series with
  | None => pd.Series_empty (Some name)
  | Some series =>
      if pd.empty series then pd.Series_empty (Some name)
      else
        let mean := pd.mean series in
        let std := pd.std np_sqrt series in
        if feq0 std || isnan std then
          pd.Series_const (Some 0) (pd.index series) (Some name)
        else
          pd.rename (pd.map_values (λ v, fdiv (fsub v mean) std) series) name
  end.

(** [components[col] = _zscore(given, col)] when [given is not None]: the
    dictionary [components], in insertion order. *)
Definition component (given : option Series) (col : string) : list (string * Series) :=
  match given with
  | Some _ => [(col, _zscore given col)]
  | None => []
  end.

Definition align_and_standardize
    (price_bias news_bias social_bias options_bias polymarket_bias : option Series)
    : DataFrame :=
  let components :=
    component price_bias "price_bias_z"
    ++ component news_bias "news_bias_z"
    ++ component social_bias "social_bias_z"
    ++ component options_bias "options_bias_z"
    ++ component polymarket_bias "polymarket_bias_z" in
  if bool_decide (components = []) then pd.DataFrame_new
  else
    let aligned := pd.concat_inner components.*2 in
    pd.dropna_all aligned.

Definition default_weights : gmap string value :=
  {[ "price" := fin 0.4; "news" := fin 0.2; "social" := fin 0.15;
     "options" := fin 0.10; "polymarket" := fin 0.15 ]}.

(** The pairs the loop over the weights runs through. *)
Definition weight_columns : list (string * string) :=
  [ ("price", "price_bias_z"); ("news", "news_bias_z");
    ("social", "social_bias_z"); ("options", "options_bias_z");
    ("polymarket", "polymarket_bias_z") ].

(** [weights or default_weights]: [None] and the empty dictionary are
    falsy. *)
Definition effective_weights (weights : option (gmap string value)) : gmap string value :=
  match weights with
  | Some w => if bool_decide (w = ∅) then default_weights else w
  | None => default_weights
  end.

(** [weight_map.get(key, 0.0)] *)
Definition get_weight (weight_map : gmap string value) (key : string) : value :=
  default (Some 0) (weight_map !! key).

Definition compute_prevailing_bias
    (price_bias news_bias social_bias options_bias polymarket_bias : option Series)
    (weights : option (gmap string value)) : DataFrame :=
  let weight_map := effective_weights weights in
  let features :=
    align_and_standardize price_bias news_bias social_bias options_bias
      polymarket_bias in
  if pd.DataFrame_empty features then features
  else
    let available_weights :=
      omap (λ kc, if pd.has_column features kc.2
                  then Some (kc.2, get_weight weight_map kc.1) else None)
           weight_columns in
    let weight_sum := py_sum available_weights.*2 in
    if feq0 weight_sum then features
    else
      let weighted_sum r :=
        py_sum (map (λ cw, fmul (pd.cell features r cw.1) cw.2) available_weights) in
      pd.assign features "prevailing_bias" (λ r, fdiv (weighted_sum r) weight_sum).
End with_sqrt.
End prevailing_bias_model.

(** ** sentiment/aggregation.py *)

(** The table of scored items.  Its three required columns are typed; any
    further column ([timestamp], [text], ...) is known by its label only.
    Every column has [n_rows] cells, and no label of [other_columns] is one
    of [date], [channel], [sentiment]. *)
Record ItemTable := mkItemTable {
  n_rows : nat;
  date_column : option (list date);
  channel_column : option (list string);
  sentiment_column : option (list value);
  other_columns : gset string
}.

Module aggregation.

(** [set(df.columns)] *)
Definition column_set (df : ItemTable) : gset string :=
  (if date_column df is Some _ then {["date"]} else ∅)
  ∪ (if channel_column df is Some _ then {["channel"]} else ∅)
  ∪ (if sentiment_column df is Some _ then {["sentiment"]} else ∅)
  ∪ other_columns df.

(** [df.empty] *)
Definition table_empty (df : ItemTable) : bool :=
  bool_decide (column_set df = ∅) || bool_decide (n_rows df = 0%nat).

(** The order of Python on [str]. *)
Definition string_le (a b : string) : Prop := String.leb a b = true.
#[local] Instance string_le_dec : RelDecision string_le.
Proof. intros a b. unfold string_le. apply _. Defined.

(** Sorted group keys, each once. *)
Definition date_keys (l : list date) : list date :=
  remove_dups (merge_sort Z.le l).
Definition channel_keys (l : list string) : list string :=
  remove_dups (merge_sort string_le l).

(** [df.groupby(["date", "channel"])["sentiment"].mean()] pivoted on
    [date] by [channel]: one row per date, one column per channel, the mean
    of the group in the cell, [NaN] for a group without items. *)
Definition grouped_pivot (dates : list date) (channels : list string)
    (sentiments : list value) : DataFrame :=
  let records := zip dates (zip channels sentiments) in
  let group d c :=
    (filter (λ r, r.1 = d ∧ r.2.1 = c) records).*2.*2 in
  let cs := channel_keys channels in
  mkDataFrame (map Some cs)
    (map (λ d, (d, map (λ c, pd.mean_values (group d c)) cs)) (date_keys dates)).

Definition aggregate_daily_sentiment (df : ItemTable) : result DataFrame :=
  if table_empty df then
    Ok (mkDataFrame [Some "date"; Some "channel"; Some "sentiment"] [])
  else
    let required_cols : gset string := {[ "date"; "channel"; "sentiment" ]} in
    let missing := required_cols ∖ column_set df in
    if bool_decide (missing ≠ ∅) then
      Raise (ValueError "Missing columns: " missing)
    else
      Ok (grouped_pivot (default [] (date_column df))
                        (default [] (channel_column df))
                        (default [] (sentiment_column df))).

(** The default of [weight_news]. *)
Definition weight_news_default : value := fin 0.6.

Definition combine_sentiment_scores (news social : Series) (weight_news : value)
    : Series :=
  let joint := pd.union_index (pd.index news) (pd.index social) in
  let news_aligned := pd.reindex news joint in
  let social_aligned := pd.reindex social joint in
  let news_filled := pd.fillna news_aligned (pd.mean news_aligned) in
  let social_filled := pd.fillna social_aligned (pd.mean social_aligned) in
  let combined :=
    pd.add (pd.map_values (fmul weight_news) news_filled)
           (pd.map_values (fmul (fsub (Some 1) weight_news)) social_filled) in
  pd.rename combined "combined_sentiment".

End aggregation.

(** ** prediction_markets/polymarket.py *)

Module polymarket.

(** [series_dict] is a dictionary in insertion order: its keys are
    distinct. *)
Definition compute_polymarket_bias (series_dict : list (string * Series))
    (weights : option (gmap string value)) : Series :=
  if bool_decide (series_dict = []) then pd.Series_empty None
  else
    let df := pd.concat_inner series_dict.*2 in
    if pd.DataFrame_empty df then pd.Series_empty None
    else
      let df := mkDataFrame (map Some series_dict.*1) (rows df) in
      let weights : gmap string value :=
        match weights with
        | None => list_to_map (map (λ mid, (mid, fin 1)) series_dict.*1)
        | Some w => w
        end in
      let aligned_weights :=
        map (λ col, (col, default (Some 0) (weights !! col))) series_dict.*1 in
      let weight_sum := py_sum aligned_weights.*2 in
      if feq0 weight_sum then pd.Series_empty None
      else
        let centered :=
          mkDataFrame (columns df)
            (map (λ r, (r.1, map (λ v, fsub v (fin 0.5)) r.2)) (rows df)) in
        let weighted r :=
          py_sum (map (λ cw, fmul (pd.cell centered r cw.1) cw.2) aligned_weights) in
        mkSeries (Some "polymarket_bias")
          (map (λ r, (r.1, weighted r.2)) (rows centered)).

End polymarket.

(** ** model/fragility.py *)

Module fragility.
Section with_sqrt.
Variable np_sqrt : value → value.

(** [int(window * 0.5)] rounds towards zero. *)
Definition bias_fragility (price_score sentiment_score : Series) (window : Z)
    : result Series :=
  let combined := pd.concat_outer [price_score; sentiment_score] in
  let z :=
    pd.by_column
      (λ col v, fdiv (fsub v (pd.mean_values col)) (pd.std_values np_sqrt col))
      combined in
  let min_periods := Z.quot window 2 in
  match pd.rolling_validate window min_periods with
  | Raise e => Raise e
  | Ok _ =>
      let fragility :=
        pd.rolling_columns (pd.std_values np_sqrt) window min_periods z in
      let frag_score := pd.mean_axis1 fragility in
      Ok (pd.rename frag_score "bias_fragility")
  end.

(** The column [col] of [(aligned - aligned.mean()) / aligned.std(ddof=0)]. *)
Definition standardized (aligned : DataFrame) (col : string) : Series :=
  let c := pd.column aligned col in
  let mean := pd.mean c in
  let std := pd.std np_sqrt c in
  pd.map_values (λ v, fdiv (fsub v mean) std) c.

Definition compute_polymarket_divergence (prevailing_bias polymarket_bias : Series)
    (window : Z) : Series :=
  if pd.empty prevailing_bias || pd.empty polymarket_bias then pd.Series_empty None
  else
    let aligned :=
      pd.concat_inner [pd.rename prevailing_bias "prevailing";
                       pd.rename polymarket_bias "polymarket"] in
    if pd.DataFrame_empty aligned then pd.Series_empty None
    else
      let divergence :=
        pd.sub (standardized aligned "prevailing") (standardized aligned "polymarket") in
      let divergence :=
        if bool_decide (1 < window)%Z then
          pd.rolling_mean window (Z.max 1 (window / 2)) divergence
        else divergence in
      pd.rename divergence "polymarket_divergence".
End with_sqrt.
End fragility.

(** ** The two [_zscore] in double precision

    Whether the test [std == 0] of the two [_zscore] holds is decided by the
    rounding of the mean and of the deviations.  The two helpers are
    therefore embedded once more over the IEEE 754 binary64 numbers
    ([float], whose own [nan] marks a missing entry), with the mean and the
    standard deviation as pandas' [nanops.nanmean] and [nanops.nanstd]
    compute them.  The order in which numpy adds the numbers of an array is
    a parameter, [np_sum]. *)

Record Series64 := mkSeries64 {
  name64 : option string;
  items64 : list (date * float)
}.

Module pd64.
Definition index (s : Series64) : list date := (items64 s).*1.
Definition values (s : Series64) : list float := (items64 s).*2.
Definition empty (s : Series64) : bool :=
  match items64 s with [] => true | _ :: _ => false end.
(** The number of defined entries. *)
Definition count (l : list float) : nat :=
  length (List.filter (λ x, negb (PrimFloat.is_nan x)) l).
Definition of_nat (n : nat) : float :=
  PrimFloat.of_uint63 (Uint63.of_Z (Z.of_nat n)).
(** A missing entry counts as 0.0 in a sum. *)
Definition fill0 (l : list float) : list float :=
  map (λ x, if PrimFloat.is_nan x then 0%float else x) l.

Section with_sum.
Variable np_sum : list float → float.
(** [nanmean]: the sum, the missing entries taken as 0.0, over the number of
    defined entries; [nan] if there are none. *)
Definition mean_values (l : list float) : float :=
  match count l with
  | O => nan
  | S _ as n => (np_sum (fill0 l) / of_nat n)%float
  end.
(** [nanstd] with [ddof=0], in two passes: the square root of the sum of
    the squared deviations from the mean, those of the missing entries taken
    as 0.0, over the number of defined entries; [nan] if there are none. *)
Definition std_values (l : list float) : float :=
  match count l with
  | O => nan
  | S _ as n =>
      let avg := (np_sum (fill0 l) / of_nat n)%float in
      let sqr :=
        map (λ x, if PrimFloat.is_nan x then 0%float
                  else ((avg - x) * (avg - x))%float) l in
      PrimFloat.sqrt (np_sum sqr / of_nat n)
  end.
Definition mean (s : Series64) : float := mean_values (values s).
Definition std (s : Series64) : float := std_values (values s).
End with_sum.
End pd64.

Module prevailing_bias_model64.
Section with_sum.
Variable np_sum : list float → float.

Definition _zscore (series : option Series64) (name : string) : Series64 :=
  match series with
  | None => mkSeries64 (Some name) []
  | Some series =>
      if pd64.empty series then mkSeries64 (Some name) []
      else
        let mean := pd64.mean np_sum series in
        let std := pd64.std np_sum series in
        if PrimFloat.eqb std 0 || PrimFloat.is_nan std then
          mkSeries64 (Some name) (map (λ d, (d, 0%float)) (pd64.index series))
        else
          mkSeries64 (Some name)
            (map (λ it, (it.1, ((it.2 - mean) / std)%float)) (items64 series))
  end.
End with_sum.
End prevailing_bias_model64.

Module price_features64.
Section with_sum.
Variable np_sum : list float → float.

Definition _zscore (series : Series64) : Series64 :=
  let mean := pd64.mean np_sum series in
  let std := pd64.std np_sum series in
  if PrimFloat.eqb std 0 || PrimFloat.is_nan std then
    mkSeries64 None (map (λ d, (d, 0%float)) (pd64.index series))
  else
    mkSeries64 (name64 series)
      (map (λ it, (it.1, ((it.2 - mean) / std)%float)) (items64 series)).
End with_sum.
End price_features64.

(** ** Computable elementary functions, to run the model on inputs *)

(** A sum from left to right, as numpy adds fewer than 8 numbers. *)
Definition seq_sum (l : list float) : float :=
  match l with
  | [] => 0%float
  | x :: l' => foldl PrimFloat.add x l'
  end.

(** The square root of [n/d] as [sqrt (n * d * 2^64) / (d * 2^32)], the
    integer square root rounding down: exact on the squares of rationals,
    [NaN] below zero and on [NaN]. *)
Definition sqrt_floor (v : value) : value :=
  match v with
  | Some x =>
      if decide (x < 0) then NaN
      else Some (Q2Qc (Qmake (Z.sqrt (Qnum x * Z.pos (Qden x) * 2 ^ 64))
                             (Qden x * 2 ^ 32)))
  | None => NaN
  end.

(** The logarithm as the first terms of [2 * artanh ((x-1)/(x+1))]: exact at
    1, [NaN] on [NaN] and below or at zero (where numpy gives [NaN] or minus
    infinity, which this model of floats lacks). *)
Definition log_series (v : value) : value :=
  match v with
  | Some x =>
      if decide (0 < x) then
        let t := (x - 1) / (x + 1) in
        Some (2 * (t + t * t * t / Qc_of_Z 3 + t * t * t * t * t / Qc_of_Z 5))
      else NaN
  | None => NaN
  end.

(** * The vocabulary of the specification *)



(** The components a call supplies, as the pairs of [weight_columns] they
    go with. *)
Definition supplied (given : option Series) (key col : string) : list (string * string) :=
  match given with Some _ => [(key, col)] | None => [] end.
Definition present (price news social options polymarket : option Series)
    : list (string * string) :=
  supplied price "price" "price_bias_z"
  ++ supplied news "news" "news_bias_z"
  ++ supplied social "social" "social_bias_z"
  ++ supplied options "options" "options_bias_z"
  ++ supplied polymarket "polymarket" "polymarket_bias_z".

(** The weights of the components supplied. *)
Definition used_weights (weights : option (gmap string value))
    (price news social options polymarket : option Series) : list value :=
  map (λ kc, prevailing_bias_model.get_weight
               (prevailing_bias_model.effective_weights weights) kc.1)
      (present price news social options polymarket).

(** The composite of a row, in the words of the specification: the weighted
    sum of its z-scored entries over the sum of the weights used. *)
Definition composite (ws : list value) (r : list value) : value :=
  fdiv (py_sum (zip_with fmul r ws)) (py_sum ws).

(** The weight of each market, in the order of the columns. *)
Definition market_weights (series_dict : list (string * Series))
    (weights : option (gmap string value)) : list value :=
  match weights with
  | None => map (λ _, fin 1) series_dict
  | Some w => map (λ kv, default (Some 0) (w !! kv.1)) series_dict
  end.

(** The entry of a series at a date once its gaps are filled: its own entry
    where it has one, the mean of its defined entries elsewhere. *)
Definition filled (s : Series) (d : date) : value :=
  match pd.lookup_date d (items s) with
  | Some x => Some x
  | None => pd.mean s
  end.

(** The sum of the squared residuals of the line [a + b x] on the points. *)
Definition sse (pts : list (Qc * Qc)) (a b : Qc) : Qc :=
  pd.qsum (map (λ p, (p.2 - (a + b * p.1)) * (p.2 - (a + b * p.1))) pts).

(** [b] is the slope of an ordinary-least-squares line of the points: with
    some intercept, no line has a smaller sum of squared residuals. *)
Definition ols_slope (pts : list (Qc * Qc)) (b : Qc) : Prop :=
  ∃ a, ∀ a' b', sse pts a b ≤ sse pts a' b'.

(** The number of points and the sums of their coordinates and products. *)
Definition count (pts : list (Qc * Qc)) : Qc := Qc_of_Z (Z.of_nat (length pts)).
Definition sum_x (pts : list (Qc * Qc)) : Qc := pd.qsum (map fst pts).
Definition sum_y (pts : list (Qc * Qc)) : Qc := pd.qsum (map snd pts).
Definition sum_xx (pts : list (Qc * Qc)) : Qc := pd.qsum (map (λ p, p.1 * p.1) pts).
Definition sum_xy (pts : list (Qc * Qc)) : Qc := pd.qsum (map (λ p, p.1 * p.2) pts).

(** The x-axis of a window: 0, 1, ..., window - 1. *)
Definition abscissas (window : Z) : list Qc :=
  map (λ k, Qc_of_Z (Z.of_nat k)) (seq 0 (Z.to_nat window)).

(** An entry [v] of a column with the entries [vals], standardised as
    [(aligned - aligned.mean()) / aligned.std(ddof=0)] does it. *)
Definition column_z (np_sqrt : value → value) (vals : list value) (v : value) : value :=
  fdiv (fsub v (pd.mean_values vals)) (pd.std_values np_sqrt vals).

(** The difference of the two series, each standardised over the dates they
    have in common. *)
Definition raw_divergence (np_sqrt : value → value) (prevailing polymarket : Series)
    : list (date * value) :=
  let common := pd.inner_index [prevailing; polymarket] in
  let p d := pd.lookup_date d (items prevailing) in
  let m d := pd.lookup_date d (items polymarket) in
  map (λ d, (d, fsub (column_z np_sqrt (map p common) (p d))
                     (column_z np_sqrt (map m common) (m d))))
      common.

(** * Inputs of the examples *)

Definition series_of (l : list (date * option Q)) : Series :=
  mkSeries None (map (λ it, (it.1, Q2Qc <$> it.2)) l).

(** A price bias whose second entry is missing, as the first rows of
    [price_bias_score] are. *)
Definition ex_price : Series :=
  series_of [(1%Z, Some 1%Q); (2%Z, None); (3%Z, Some 3%Q)].
(** A component that is constantly 0, as the options placeholder. *)
Definition ex_flat : Series :=
  series_of [(1%Z, Some 0%Q); (2%Z, Some 0%Q); (3%Z, Some 0%Q); (4%Z, Some 0%Q)].
Definition ex_constant : Series := series_of [(1%Z, Some 0.5%Q); (2%Z, Some 0.5%Q)].
(** All-equal series in double precision: three times 0.1, twice 0.5. *)
Definition ex_tenths : Series64 :=
  mkSeries64 None
    [(1%Z, (1 / 10)%float); (2%Z, (1 / 10)%float); (3%Z, (1 / 10)%float)].
(** The channels of the example of the specification. *)
Definition ex_news : Series :=
  series_of [(1%Z, Some 0.2%Q); (2%Z, None); (3%Z, Some 0.6%Q)].
Definition ex_social : Series :=
  series_of [(1%Z, None); (2%Z, Some 0.1%Q); (3%Z, Some 0.3%Q)].
(** Three items with a date and a text, but neither channel nor sentiment. *)
Definition ex_items : ItemTable :=
  mkItemTable 3 (Some [2; 1; 2]%Z) None None {[ "text" ]}.
(** Three scored items of two channels, on two days. *)
Definition ex_scored : ItemTable :=
  mkItemTable 3 (Some [2; 1; 2]%Z) (Some ["news"; "social"; "news"])
    (Some [fin 1; fin 0.5; fin 0]) ∅.
(** Three days of closing prices. *)
Definition ex_prices : PriceFrame :=
  mkPriceFrame
    (mkDataFrame [Some "Open"; Some "Close"]
       [(1%Z, [fin 1; fin 1]); (2%Z, [fin 1; fin 2]); (3%Z, [fin 2; fin 4])])
    true.
(** Three days at the same close. *)
Definition ex_level_prices : PriceFrame :=
  mkPriceFrame
    (mkDataFrame [Some "Close"]
       [(1%Z, [fin 1]); (2%Z, [fin 1]); (3%Z, [fin 1])])
    true.
(** One market constantly at 0.7. *)
Definition ex_markets : list (string * Series) :=
  [("m", pd.Series_const (fin 0.7) [1; 2]%Z None)].

(** * Properties *)

(** ** Sums and means of rationals *)

Lemma of_nat_S_ne0 (n : nat) : Qc_of_Z (Z.of_nat (S n)) ≠ 0.
Proof.
  intros H. rewrite <- Z2Qc_inj_0 in H. apply Z2Qc_inj in H. lia.
Qed.

Lemma of_nat_S (n : nat) : Qc_of_Z (Z.of_nat (S n)) = Qc_of_Z (Z.of_nat n) + 1.
Proof. by rewrite Nat2Z.inj_succ, <- Z.add_1_r, Z2Qc_inj_add, Z2Qc_inj_1. Qed.

Lemma qsum_all_equal (c : Qc) (xs : list Qc) :
  (∀ x, x ∈ xs → x = c) → pd.qsum xs = Qc_of_Z (Z.of_nat (length xs)) * c.
Proof.
  induction xs as [|x xs IH]; intros Hall.
  - cbn [length pd.qsum foldr]. change (Z.of_nat 0) with 0%Z.
    rewrite Z2Qc_inj_0. ring.
  - cbn [pd.qsum foldr length]. rewrite of_nat_S.
    fold (pd.qsum xs). rewrite IH by (intros; apply Hall; by right).
    rewrite (Hall x) by left. ring.
Qed.

Lemma qsum_all_zero (xs : list Qc) : (∀ x, x ∈ xs → x = 0) → pd.qsum xs = 0.
Proof. intros H. rewrite (qsum_all_equal 0) by done. ring. Qed.

Lemma fdiv_of_nat_S (x : Qc) (n : nat) :
  fdiv (Some x) (of_nat (S n)) = Some (x / Qc_of_Z (Z.of_nat (S n))).
Proof.
  unfold fdiv, of_nat, of_Z. case_decide as H; [|done].
  by apply of_nat_S_ne0 in H.
Qed.

Lemma mean_values_no_defined (l : list value) :
  pd.dropna l = [] → pd.mean_values l = NaN.
Proof.
  intros H. unfold pd.mean_values. rewrite H. cbn [length].
  unfold fdiv, of_nat, of_Z. change (Z.of_nat 0) with 0%Z.
  rewrite Z2Qc_inj_0. by rewrite decide_True.
Qed.

Lemma mean_values_constant (c : Qc) (l : list value) :
  pd.dropna l ≠ [] → (∀ x, x ∈ pd.dropna l → x = c) → pd.mean_values l = Some c.
Proof.
  intros Hne Hall. unfold pd.mean_values.
  rewrite (qsum_all_equal c) by done.
  destruct (pd.dropna l) as [|x xs]; [done|].
  cbn [length]. rewrite fdiv_of_nat_S. f_equal.
  field. apply of_nat_S_ne0.
Qed.

Lemma var_values_no_defined (l : list value) :
  pd.dropna l = [] → pd.var_values l = NaN.
Proof. intros H. unfold pd.var_values. by rewrite mean_values_no_defined. Qed.

(** ** Standardisation of degenerate series *)

Section zscore.
Variable np_sum : list float → float.



End zscore.

(** ** Sums of floats *)

Lemma foldl_fadd_nan (l : list value) : foldl fadd NaN l = NaN.
Proof. induction l as [|v l IH]; [done|]. simpl. apply IH. Qed.

Lemma foldl_fadd_finite (acc : Qc) (qs : list Qc) :
  foldl fadd (Some acc) (map Some qs) = Some (acc + pd.qsum qs).
Proof.
  revert acc. induction qs as [|q qs IH]; intros acc; simpl.
  - f_equal. ring.
  - rewrite IH. f_equal. fold (pd.qsum qs). ring.
Qed.

Lemma py_sum_finite (qs : list Qc) : py_sum (map Some qs) = Some (pd.qsum qs).
Proof. unfold py_sum. rewrite foldl_fadd_finite. f_equal. ring. Qed.

Lemma foldl_fadd_scaled (W acc : Qc) (r : list value) (qs : list Qc) :
  W ≠ 0 →
  fdiv (foldl fadd (Some acc) (zip_with fmul r (map Some qs))) (Some W)
  = foldl fadd (Some (acc / W)) (zip_with fmul r (map (λ q, Some (q / W)) qs)).
Proof.
  intros HW. revert acc qs.
  induction r as [|v r IH]; intros acc qs.
  - simpl. unfold fdiv. by rewrite decide_False.
  - destruct qs as [|q qs].
    + simpl. unfold fdiv. by rewrite decide_False.
    + destruct v as [x|]; simpl.
      * rewrite IH. do 2 f_equal. field. done.
      * by rewrite !foldl_fadd_nan.
Qed.

Lemma qsum_scaled (W : Qc) (qs : list Qc) :
  W ≠ 0 → pd.qsum (map (λ q, q / W) qs) = pd.qsum qs / W.
Proof.
  intros HW. induction qs as [|q qs IH]; simpl.
  - field. done.
  - fold (pd.qsum qs). fold (pd.qsum (map (λ q, q / W) qs)).
    rewrite IH. field. done.
Qed.

(** ** The combiner *)

(** A column is read back at its position. *)
Lemma cell_at (df : DataFrame) (cols : list string) (r : list value)
    (i : nat) (c : string) :
  columns df = map Some cols → NoDup cols → cols !! i = Some c →
  pd.cell df r c = default NaN (r !! i).
Proof.
  intros Hcols Hnd Hi. unfold pd.cell. rewrite Hcols.
  destruct (list_find _ _) as [[k y]|] eqn:Hf.
  - apply list_find_Some in Hf as (Hk & -> & _).
    rewrite list_lookup_fmap in Hk.
    destruct (cols !! k) as [c'|] eqn:Hk'; simplify_eq/=.
    by rewrite (NoDup_lookup cols i k c).
  - apply list_find_None in Hf.
    rewrite Forall_forall in Hf. destruct (Hf (Some c)); [|done].
    apply list_elem_of_fmap. exists c. split; [done|].
    by eapply list_elem_of_lookup_2.
Qed.

Lemma weighted_terms (df : DataFrame) (cws : list (string * value)) (r : list value) :
  columns df = map Some cws.*1 → NoDup cws.*1 → length r = length cws →
  map (λ cw, fmul (pd.cell df r cw.1) cw.2) cws = zip_with fmul r cws.*2.
Proof.
  intros Hcols Hnd Hlen. apply list_eq. intros i.
  rewrite list_lookup_fmap, lookup_zip_with, list_lookup_fmap.
  destruct (cws !! i) as [cw|] eqn:Hi; simpl.
  - destruct (lookup_lt_is_Some_2 r i) as [v Hv].
    { rewrite Hlen. by eapply lookup_lt_Some. }
    rewrite Hv. simpl. f_equal.
    rewrite (cell_at df cws.*1 r i cw.1); [|done|done|].
    + unfold value in *. by rewrite Hv.
    + by rewrite list_lookup_fmap, Hi.
  - by destruct (r !! i).
Qed.

Section combiner.
Variable np_sqrt : value → value.

Abbreviation align_and_standardize := (prevailing_bias_model.align_and_standardize np_sqrt).
Abbreviation compute_prevailing_bias := (prevailing_bias_model.compute_prevailing_bias np_sqrt).


Lemma zscore_name (s : option Series) (n : string) :
  name (prevailing_bias_model._zscore np_sqrt s n) = Some n.
Proof.
  unfold prevailing_bias_model._zscore.
  destruct s as [s|]; [|done].
  destruct (pd.empty s); [done|]. by destruct (_ || _).
Qed.

Lemma component_names (given : option Series) (key col : string) :
  map name (prevailing_bias_model.component np_sqrt given col).*2
  = map (λ kc, Some kc.2) (supplied given key col).
Proof.
  destruct given; [|done].
  cbn -[prevailing_bias_model._zscore]. by rewrite zscore_name.
Qed.

Lemma component_length (given : option Series) (key col : string) :
  length (prevailing_bias_model.component np_sqrt given col)
  = length (supplied given key col).
Proof. by destruct given. Qed.

Lemma present_NoDup price news social options polymarket :
  NoDup (present price news social options polymarket).*2.
Proof.
  destruct price, news, social, options, polymarket; compute_done.
Qed.

Lemma align_columns price news social options polymarket :
  columns (align_and_standardize price news social options polymarket)
  = map (λ kc, Some kc.2) (present price news social options polymarket).
Proof.
  unfold prevailing_bias_model.align_and_standardize.
  case_bool_decide as He.
  - destruct price, news, social, options, polymarket; done.
  - cbn [pd.dropna_all pd.concat_inner columns]. unfold present.
    rewrite !fmap_app.
    by rewrite (component_names price "price"), (component_names news "news"),
      (component_names social "social"), (component_names options "options"),
      (component_names polymarket "polymarket").
Qed.

Lemma align_row_length price news social options polymarket (r : date * list value) :
  r ∈ rows (align_and_standardize price news social options polymarket) →
  length r.2 = length (present price news social options polymarket).
Proof.
  unfold prevailing_bias_model.align_and_standardize.
  case_bool_decide as He; [by intros ?%elem_of_nil|].
  cbn [pd.dropna_all pd.concat_inner rows].
  intros [_ Hr]%list_elem_of_filter.
  apply list_elem_of_fmap in Hr as [d [-> _]]. cbn [snd].
  rewrite length_fmap, length_fmap. unfold present. rewrite !length_app.
  by rewrite (component_length price "price"), (component_length news "news"),
    (component_length social "social"), (component_length options "options"),
    (component_length polymarket "polymarket").
Qed.

(** The loop over [weight_columns] collects the weights of the components
    supplied, in their order. *)
Lemma available_weights_present price news social options polymarket
    (w : string → value) :
  omap (λ kc : string * string,
          if pd.has_column
               (align_and_standardize price news social options polymarket) kc.2
          then Some (kc.2, w kc.1) else None)
       prevailing_bias_model.weight_columns
  = map (λ kc, (kc.2, w kc.1)) (present price news social options polymarket).
Proof.
  unfold pd.has_column. rewrite align_columns.
  destruct price, news, social, options, polymarket; vm_compute; reflexivity.
Qed.

Lemma no_prevailing_column price news social options polymarket :
  list_find (λ c, c = Some "prevailing_bias")
    (columns (align_and_standardize price news social options polymarket)) = None.
Proof.
  rewrite align_columns.
  destruct price, news, social, options, polymarket; vm_compute; reflexivity.
Qed.

(** [compute_prevailing_bias], with its loops carried out. *)
Lemma compute_unfold price news social options polymarket weights :
  let features := align_and_standardize price news social options polymarket in
  let ws := used_weights weights price news social options polymarket in
  compute_prevailing_bias price news social options polymarket weights
  = if pd.DataFrame_empty features then features
    else if feq0 (py_sum ws) then features
    else mkDataFrame (columns features ++ [Some "prevailing_bias"])
           (map (λ r, (r.1, r.2 ++ [composite ws r.2])) (rows features)).
Proof.
  intros features ws.
  unfold prevailing_bias_model.compute_prevailing_bias.
  rewrite (available_weights_present _ _ _ _ _
             (prevailing_bias_model.get_weight
                (prevailing_bias_model.effective_weights weights))).
  assert ((map (λ kc : string * string,
                  (kc.2, prevailing_bias_model.get_weight
                           (prevailing_bias_model.effective_weights weights) kc.1))
               (present price news social options polymarket)).*2 = ws) as ->.
  { unfold ws, used_weights. by rewrite <- list_fmap_compose. }
  fold features. destruct (pd.DataFrame_empty features); [done|].
  destruct (feq0 (py_sum ws)); [done|].
  unfold pd.assign. unfold features at 1.
  rewrite no_prevailing_column. fold features. f_equal.
  apply map_ext_in. intros r Hr%list_elem_of_In.
  do 3 f_equal. unfold composite. do 2 f_equal.
  rewrite weighted_terms.
  - unfold ws, used_weights. by rewrite <- list_fmap_compose.
  - rewrite <- !list_fmap_compose. unfold features. by rewrite align_columns.
  - rewrite <- list_fmap_compose. apply present_NoDup.
  - rewrite length_fmap. by apply align_row_length.
Qed.

(** C2: when a composite is produced (the aligned frame has rows and the
    weights used do not sum to 0), each row gets as [prevailing_bias] the
    weighted sum of its z-scored entries over the sum of the weights of the
    components supplied, and of no other; with finite weights this is the
    sum weighted by the weights divided by their sum, which add up to 1.
    With only price and news supplied and the default weights, the weights
    used are 0.4 and 0.2, their sum is 0.6, and the composite is weighted by
    0.4/0.6 and 0.2/0.6. *)
Theorem prevailing_bias_renormalized price news social options polymarket weights :
  let features := align_and_standardize price news social options polymarket in
  let ws := used_weights weights price news social options polymarket in
  pd.DataFrame_empty features = false →
  feq0 (py_sum ws) = false →
  compute_prevailing_bias price news social options polymarket weights
    = mkDataFrame (columns features ++ [Some "prevailing_bias"])
        (map (λ r, (r.1, r.2 ++ [composite ws r.2])) (rows features))
  ∧ (∀ qs W, ws = map Some qs → py_sum ws = Some W →
       pd.qsum (map (λ q, q / W) qs) = 1
       ∧ ∀ r, composite ws r
              = py_sum (zip_with fmul r (map (λ q, Some (q / W)) qs)))
  ∧ (is_Some price → is_Some news → social = None → options = None →
     polymarket = None → weights = None →
       ws = [fin 0.4; fin 0.2] ∧ py_sum ws = fin 0.6
       ∧ ∀ r, composite ws r
              = py_sum (zip_with fmul r [fdiv (fin 0.4) (fin 0.6);
                                         fdiv (fin 0.2) (fin 0.6)])).
Proof.
  intros features ws Hrows Hsum.
  assert (Hrenorm : ∀ qs W, ws = map Some qs → py_sum ws = Some W →
            pd.qsum (map (λ q, q / W) qs) = 1
            ∧ ∀ r, composite ws r
                   = py_sum (zip_with fmul r (map (λ q, Some (q / W)) qs))).
  { intros qs W Hqs HW.
    assert (W ≠ 0) as HW0.
    { intros ->. unfold feq0 in Hsum. by rewrite HW, bool_decide_eq_true_2 in Hsum. }
    assert (pd.qsum qs = W) as Hq.
    { rewrite Hqs, py_sum_finite in HW. by injection HW. }
    split.
    - rewrite qsum_scaled, Hq by done. by field.
    - intros r. unfold composite. rewrite HW, Hqs. unfold py_sum.
      rewrite foldl_fadd_scaled by done. do 2 f_equal. by field. }
  split; [|split; [done|]].
  - pose proof (compute_unfold price news social options polymarket weights) as H.
    cbv zeta in H. fold features ws in H. by rewrite H, Hrows, Hsum.
  - intros [p ->] [n ->] -> -> -> ->.
    assert (ws = map Some [Q2Qc 0.4; Q2Qc 0.2]) as Hws by (vm_compute; reflexivity).
    assert (py_sum ws = Some (Q2Qc 0.6)) as HW by compute_done.
    split; [done|]. split; [done|].
    intros r. destruct (Hrenorm _ _ Hws HW) as [_ ->].
    do 2 f_equal; compute_done.
Qed.

(** C3: if the weights of the components supplied sum to 0, the result is
    the aligned frame itself, which has no [prevailing_bias] column. *)
Theorem zero_weight_sum_returns_features price news social options polymarket weights :
  py_sum (used_weights weights price news social options polymarket) = Some 0 →
  compute_prevailing_bias price news social options polymarket weights
    = align_and_standardize price news social options polymarket
  ∧ Some "prevailing_bias"
      ∉ columns (compute_prevailing_bias price news social options polymarket weights).
Proof.
  intros Hsum.
  pose proof (compute_unfold price news social options polymarket weights) as H.
  cbv zeta in H. rewrite Hsum in H.
  assert (compute_prevailing_bias price news social options polymarket weights
          = align_and_standardize price news social options polymarket) as ->.
  { rewrite H. by destruct (pd.DataFrame_empty _). }
  split; [done|].
  intros Hin. pose proof (no_prevailing_column price news social options polymarket) as Hf.
  apply list_find_None in Hf. rewrite Forall_forall in Hf. by apply (Hf _ Hin).
Qed.

(** The default weights of the components supplied do not sum to 0. *)
Lemma default_weight_sum_nonzero price news social options polymarket :
  present price news social options polymarket ≠ [] →
  feq0 (py_sum (used_weights None price news social options polymarket)) = false.
Proof.
  destruct price, news, social, options, polymarket; intros Hne;
    (done || (vm_compute; reflexivity)).
Qed.

Lemma align_nonempty_present price news social options polymarket :
  pd.DataFrame_empty (align_and_standardize price news social options polymarket)
    = false →
  present price news social options polymarket ≠ [].
Proof.
  intros Hne Hp.
  pose proof (align_columns price news social options polymarket) as Hc.
  rewrite Hp in Hc. unfold pd.DataFrame_empty in Hne. by rewrite Hc in Hne.
Qed.

(** C10: an empty weight dictionary is falsy, so the default weights stand
    in for it: the result is that of a call without weights, and it has a
    [prevailing_bias] column as soon as the aligned frame has rows. *)
Theorem empty_weights_are_default price news social options polymarket :
  prevailing_bias_model.effective_weights (Some ∅)
    = prevailing_bias_model.default_weights
  ∧ compute_prevailing_bias price news social options polymarket (Some ∅)
    = compute_prevailing_bias price news social options polymarket None
  ∧ (pd.DataFrame_empty
       (align_and_standardize price news social options polymarket) = false →
     Some "prevailing_bias"
       ∈ columns (compute_prevailing_bias price news social options polymarket
                    (Some ∅))).
Proof.
  split; [reflexivity|]. split; [reflexivity|].
  intros Hne.
  pose proof (compute_unfold price news social options polymarket (Some ∅)) as H.
  cbv zeta in H. rewrite Hne in H.
  change (used_weights (Some ∅) price news social options polymarket)
    with (used_weights None price news social options polymarket) in H.
  rewrite default_weight_sum_nonzero in H by by apply align_nonempty_present.
  rewrite H. cbn [columns]. apply elem_of_app. right. by left.
Qed.

End combiner.

(** ** Lookup by date *)

Lemma lookup_date_map (g : date → value) (idx : list date) (d : date) :
  d ∈ idx → pd.lookup_date d (map (λ d', (d', g d')) idx) = g d.
Proof.
  induction idx as [|x idx IH]; [by intros ?%elem_of_nil|].
  intros Hd. cbn [map pd.lookup_date fst snd].
  case_decide as Hx; [by subst|].
  apply IH. apply elem_of_cons in Hd as [?|?]; done.
Qed.

Lemma lookup_date_absent (d : date) (l : list (date * value)) :
  d ∉ l.*1 → pd.lookup_date d l = NaN.
Proof.
  induction l as [|it l IH]; [done|].
  intros Hd. cbn [pd.lookup_date].
  rewrite fmap_cons, not_elem_of_cons in Hd. destruct Hd as [Hne Hd].
  rewrite decide_False by done. by apply IH.
Qed.

Lemma fmap_fst_pair {A B : Type} (g : A → B) (l : list A) :
  (map (λ a, (a, g a)) l).*1 = l.
Proof. induction l as [|a l IH]; [done|]. cbn. by f_equal. Qed.

Lemma index_Series_const (v : value) (idx : list date) (n : option string) :
  pd.index (pd.Series_const v idx n) = idx.
Proof. unfold pd.index, pd.Series_const. cbn [items]. apply fmap_fst_pair. Qed.

Lemma inner_index_single (s : Series) : pd.inner_index [s] = pd.index s.
Proof.
  unfold pd.inner_index. induction (pd.index s) as [|d l IH]; [done|].
  rewrite filter_cons_True by constructor. by rewrite IH.
Qed.

Lemma inner_index_pair (a b : Series) (d : date) :
  d ∈ pd.inner_index [a; b] ↔ d ∈ pd.index a ∧ d ∈ pd.index b.
Proof.
  unfold pd.inner_index. rewrite list_elem_of_filter, Forall_singleton. tauto.
Qed.

(** ** The prediction-market aggregate *)


Lemma uniform_weights_lookup (keys : list string) (k : string) :
  k ∈ keys →
  (list_to_map (map (λ mid, (mid, fin 1)) keys) : gmap string value) !! k
  = Some (fin 1).
Proof.
  induction keys as [|x keys IH]; [by intros ?%elem_of_nil|].
  intros Hk. cbn [map list_to_map foldr].
  destruct (decide (x = k)) as [->|Hne].
  - by rewrite lookup_insert_eq.
  - rewrite lookup_insert_ne by done. apply IH.
    apply elem_of_cons in Hk as [?|?]; done.
Qed.

Lemma aligned_weights_market (series_dict : list (string * Series))
    (weights : option (gmap string value)) :
  let w : gmap string value :=
    match weights with
    | None => list_to_map (map (λ mid, (mid, fin 1)) series_dict.*1)
    | Some w => w
    end in
  (map (λ col, (col, default (Some 0) (w !! col))) series_dict.*1).*2
  = market_weights series_dict weights.
Proof.
  intros w. rewrite <- !list_fmap_compose. unfold market_weights.
  destruct weights as [w'|]; [done|]. subst w.
  apply map_ext_in. intros kv Hkv%list_elem_of_In. cbn.
  rewrite uniform_weights_lookup; [done|].
  apply list_elem_of_fmap. by exists kv.
Qed.

Lemma polymarket_bias_rows (series_dict : list (string * Series))
    (weights : option (gmap string value)) :
  let df := pd.concat_inner series_dict.*2 in
  let ws := market_weights series_dict weights in
  NoDup series_dict.*1 →
  pd.DataFrame_empty df = false →
  feq0 (py_sum ws) = false →
  polymarket.compute_polymarket_bias series_dict weights
  = mkSeries (Some "polymarket_bias")
      (map (λ r, (r.1, py_sum (zip_with fmul
                                 (map (λ v, fsub v (fin 0.5)) r.2) ws)))
           (rows df)).
Proof.
  intros df ws Hnd Hdf Hsum. unfold polymarket.compute_polymarket_bias.
  fold df. rewrite Hdf.
  case_bool_decide as Hne.
  { subst df. by rewrite Hne in Hdf. }
  cbv zeta. rewrite aligned_weights_market. fold ws. rewrite Hsum.
  f_equal. cbn [rows columns]. rewrite map_map.
  apply map_ext_in. intros r Hr%list_elem_of_In. cbn [fst snd]. do 2 f_equal.
  rewrite weighted_terms.
  - f_equal. apply aligned_weights_market.
  - cbn [columns]. by rewrite fmap_fst_pair.
  - by rewrite fmap_fst_pair.
  - rewrite !length_fmap. subst df. cbn [pd.concat_inner rows] in Hr.
    apply list_elem_of_fmap in Hr as [d [-> _]]. cbn [snd].
    by rewrite !length_fmap.
Qed.

Lemma concat_single_rows (v : value) (dates : list date) (n : option string) :
  rows (pd.concat_inner [pd.Series_const v dates n])
  = map (λ d, (d, [v])) dates.
Proof.
  unfold pd.concat_inner. cbn [rows].
  rewrite inner_index_single, index_Series_const.
  apply map_ext_in. intros d Hd%list_elem_of_In.
  do 2 f_equal. cbn [map]. f_equal.
  unfold pd.Series_const. cbn [items].
  by rewrite (lookup_date_map (λ _, v)).
Qed.

(** C7: the aggregate is, row by row of the inner join, the sum over the
    markets of (probability - 0.5) times the weight of the market: the
    series are recentred and not standardised.  A single market constantly
    at 0.7, without weights, gives 0.2 on each of its dates. *)
Theorem polymarket_bias_recentred (series_dict : list (string * Series))
    (weights : option (gmap string value)) :
  let df := pd.concat_inner series_dict.*2 in
  let ws := market_weights series_dict weights in
  (NoDup series_dict.*1 →
   pd.DataFrame_empty df = false →
   feq0 (py_sum ws) = false →
   polymarket.compute_polymarket_bias series_dict weights
   = mkSeries (Some "polymarket_bias")
       (map (λ r, (r.1, py_sum (zip_with fmul
                                  (map (λ v, fsub v (fin 0.5)) r.2) ws)))
            (rows df)))
  ∧ ∀ (mid : string) (n : option string) (dates : list date),
      items (polymarket.compute_polymarket_bias
               [(mid, pd.Series_const (fin 0.7) dates n)] None)
      = map (λ d, (d, fin 0.2)) dates.
Proof.
  intros df ws. split; [apply polymarket_bias_rows|].
  clear. intros mid n dates.
  destruct (decide (dates = [])) as [->|Hne]; [reflexivity|].
  change ([(mid, pd.Series_const (fin 0.7) dates n)].*2)
    with [pd.Series_const (fin 0.7) dates n].
  rewrite polymarket_bias_rows.
  - change ([(mid, pd.Series_const (fin 0.7) dates n)].*2)
      with [pd.Series_const (fin 0.7) dates n].
    cbn [items]. rewrite concat_single_rows.
    rewrite map_map. apply map_ext_in. intros d _. cbn [fst snd]. f_equal.
    compute_done.
  - apply NoDup_singleton.
  - change ([(mid, pd.Series_const (fin 0.7) dates n)].*2)
      with [pd.Series_const (fin 0.7) dates n].
    unfold pd.DataFrame_empty. rewrite concat_single_rows.
    rewrite bool_decide_eq_false_2 by done.
    rewrite bool_decide_eq_false_2; [done|]. by destruct dates.
  - compute_done.
Qed.

(** ** Divergence from the prediction markets *)

(** C8: when the prevailing series is empty, or the prediction-market
    series is, or the two have no date in common, the divergence is the
    empty series. *)
Theorem divergence_of_nothing_is_empty (np_sqrt : value → value)
    (prevailing_bias polymarket_bias : Series) (window : Z) :
  pd.empty prevailing_bias = true
  ∨ pd.empty polymarket_bias = true
  ∨ (∀ d, d ∈ pd.index prevailing_bias → d ∉ pd.index polymarket_bias) →
  fragility.compute_polymarket_divergence np_sqrt prevailing_bias
    polymarket_bias window
  = pd.Series_empty None.
Proof.
  intros H. unfold fragility.compute_polymarket_divergence.
  destruct (pd.empty prevailing_bias) eqn:Hp; [done|].
  destruct (pd.empty polymarket_bias) eqn:Hm; [done|].
  destruct H as [?|[?|Hdisjoint]]; [done|done|]. cbn [orb].
  assert (pd.inner_index [pd.rename prevailing_bias "prevailing";
                          pd.rename polymarket_bias "polymarket"] = []) as Hidx.
  { apply elem_of_nil_inv. intros d [Ha Hb]%inner_index_pair.
    by apply (Hdisjoint d). }
  unfold pd.DataFrame_empty, pd.concat_inner. cbn [rows columns].
  rewrite Hidx. cbn [map].
  rewrite (bool_decide_eq_true_2 ([] = [])) by done.
  by rewrite orb_true_r.
Qed.

(** ** Validation of the item table *)

(** C9: an empty item table gives an empty table, whatever its columns; a
    table with rows that lacks one of [date], [channel], [sentiment] raises
    a [ValueError] that names exactly the required columns it lacks; a table
    with rows and the three columns raises nothing. *)
Theorem aggregate_daily_sentiment_validation (df : ItemTable) :
  let required : gset string := {[ "date"; "channel"; "sentiment" ]} in
  (aggregation.table_empty df = true →
     aggregation.aggregate_daily_sentiment df
     = Ok (mkDataFrame [Some "date"; Some "channel"; Some "sentiment"] []))
  ∧ (aggregation.table_empty df = false →
     ∀ c, c ∈ required → c ∉ aggregation.column_set df →
       ∃ missing,
         aggregation.aggregate_daily_sentiment df
           = Raise (ValueError "Missing columns: " missing)
         ∧ c ∈ missing
         ∧ ∀ c', c' ∈ missing ↔ c' ∈ required ∧ c' ∉ aggregation.column_set df)
  ∧ (aggregation.table_empty df = false →
     required ⊆ aggregation.column_set df →
       ∃ out, aggregation.aggregate_daily_sentiment df = Ok out).
Proof.
  intros required. unfold aggregation.aggregate_daily_sentiment.
  fold required. repeat split.
  - by intros ->.
  - intros -> c Hc Hnot. exists (required ∖ aggregation.column_set df).
    rewrite bool_decide_eq_true_2 by set_solver.
    split; [done|]. split; set_solver.
  - intros -> Hsub. rewrite bool_decide_eq_false_2 by set_solver. eauto.
Qed.

(** ** The outer join *)

Lemma union_index_nil_l (b : list date) : pd.union_index [] b = b.
Proof. by destruct b. Qed.

Lemma union_index_nil_r (a : list date) : pd.union_index a [] = a.
Proof. by destruct a. Qed.

Lemma union_index_cons (x y : date) (a b : list date) :
  pd.union_index (x :: a) (y :: b)
  = if decide (x < y)%Z then x :: pd.union_index a (y :: b)
    else if decide (y < x)%Z then y :: pd.union_index (x :: a) b
    else x :: pd.union_index a b.
Proof. reflexivity. Qed.

Lemma elem_of_union_index (d : date) (a b : list date) :
  d ∈ pd.union_index a b ↔ d ∈ a ∨ d ∈ b.
Proof.
  revert b. induction a as [|x a IHa]; intros b.
  { rewrite union_index_nil_l, elem_of_nil. tauto. }
  induction b as [|y b IHb].
  { rewrite union_index_nil_r, (elem_of_nil d). tauto. }
  rewrite union_index_cons. repeat case_decide.
  - rewrite elem_of_cons, IHa, !elem_of_cons. tauto.
  - rewrite elem_of_cons, IHb, !elem_of_cons. tauto.
  - assert (x = y) as -> by lia.
    rewrite elem_of_cons, IHa, !elem_of_cons. tauto.
Qed.

Lemma union_index_diag (l : list date) : pd.union_index l l = l.
Proof.
  induction l as [|x l IH]; [done|].
  rewrite union_index_cons, !decide_False by lia. by rewrite IH.
Qed.

Lemma union_index_sorted (a b : list date) :
  StronglySorted Z.lt a → StronglySorted Z.lt b →
  StronglySorted Z.lt (pd.union_index a b).
Proof.
  revert b. induction a as [|x a IHa]; intros b Ha Hb.
  { by rewrite union_index_nil_l. }
  induction b as [|y b IHb].
  { by rewrite union_index_nil_r. }
  apply StronglySorted_inv in Ha as [Ha Hxa].
  pose proof Hb as Hb'. apply StronglySorted_inv in Hb' as [Hb' Hyb].
  rewrite Forall_forall in Hxa, Hyb.
  rewrite union_index_cons. repeat case_decide.
  - constructor; [by apply IHa|].
    apply Forall_forall. intros d [Hd|Hd]%elem_of_union_index.
    + by apply Hxa.
    + apply elem_of_cons in Hd as [->|Hd]; [done|].
      specialize (Hyb d Hd). lia.
  - constructor; [by apply IHb|].
    apply Forall_forall. intros d [Hd|Hd]%elem_of_union_index.
    + apply elem_of_cons in Hd as [->|Hd]; [done|].
      specialize (Hxa d Hd). lia.
    + by apply Hyb.
  - assert (x = y) as -> by lia.
    constructor; [by apply IHa|].
    apply Forall_forall. intros d [Hd|Hd]%elem_of_union_index.
    + by apply Hxa.
    + by apply Hyb.
Qed.

Lemma dropna_cons (v : value) (l : list value) :
  pd.dropna (v :: l)
  = match v with Some x => x :: pd.dropna l | None => pd.dropna l end.
Proof. by destruct v. Qed.

Lemma dropna_all_missing (b : list date) : pd.dropna (map (λ _, NaN) b) = [].
Proof. induction b as [|d b IH]; [done|]. apply IH. Qed.

Lemma lookup_date_later (it : date * value) (a : list (date * value))
    (l : list date) :
  (∀ d, d ∈ l → (it.1 < d)%Z) →
  map (λ d, pd.lookup_date d (it :: a)) l = map (λ d, pd.lookup_date d a) l.
Proof.
  intros Hl. apply map_ext_in. intros d Hd%list_elem_of_In.
  cbn [pd.lookup_date]. rewrite decide_False; [done|].
  specialize (Hl d Hd). lia.
Qed.

(** Reindexing a series to the union of its increasing index with another
    keeps its defined entries, in their order. *)
Lemma dropna_reindex_union (a : list (date * value)) (b : list date) :
  StronglySorted Z.lt a.*1 → StronglySorted Z.lt b →
  pd.dropna (map (λ d, pd.lookup_date d a) (pd.union_index a.*1 b))
  = pd.dropna a.*2.
Proof.
  revert b. induction a as [|[x v] a IHa]; intros b Ha Hb.
  { rewrite union_index_nil_l. apply dropna_all_missing. }
  rewrite !fmap_cons in *. cbn [fst snd] in *.
  apply StronglySorted_inv in Ha as [Ha Hxa]. rewrite Forall_forall in Hxa.
  assert (Hhead : pd.lookup_date x ((x, v) :: a) = v).
  { cbn [pd.lookup_date fst snd]. by rewrite decide_True. }
  induction b as [|y b IHb].
  { rewrite union_index_nil_r. cbn [map]. rewrite Hhead.
    rewrite (lookup_date_later (x, v)) by done.
    specialize (IHa [] Ha Hb). rewrite union_index_nil_r in IHa.
    rewrite !dropna_cons. by rewrite IHa. }
  pose proof Hb as Hb'. apply StronglySorted_inv in Hb' as [Hb' Hyb].
  rewrite Forall_forall in Hyb.
  rewrite union_index_cons. repeat case_decide.
  - cbn [map]. rewrite Hhead. rewrite (lookup_date_later (x, v)).
    + rewrite !dropna_cons. by rewrite IHa.
    + intros d [Hd|Hd]%elem_of_union_index; [by apply Hxa|].
      apply elem_of_cons in Hd as [->|Hd]; [done|].
      specialize (Hyb d Hd). cbn. lia.
  - cbn [map]. rewrite (lookup_date_absent y).
    + rewrite dropna_cons. by apply IHb.
    + rewrite fmap_cons. cbn [fst]. intros [->|Hd]%elem_of_cons; [lia|].
      specialize (Hxa y Hd). lia.
  - assert (x = y) as <- by lia.
    cbn [map]. rewrite Hhead. rewrite (lookup_date_later (x, v)).
    + rewrite !dropna_cons. by rewrite IHa.
    + intros d [Hd|Hd]%elem_of_union_index; [by apply Hxa|by apply Hyb].
Qed.

Lemma union_index_comm (a b : list date) : pd.union_index a b = pd.union_index b a.
Proof.
  revert b. induction a as [|x a IHa]; intros b.
  { by rewrite union_index_nil_l, union_index_nil_r. }
  induction b as [|y b IHb].
  { by rewrite union_index_nil_l, union_index_nil_r. }
  rewrite !union_index_cons. repeat case_decide; try lia.
  - by rewrite IHa.
  - by rewrite IHb.
  - assert (x = y) as -> by lia. by rewrite IHa.
Qed.

Lemma fmap_snd_pair {A B : Type} (g : A → B) (l : list A) :
  (map (λ a, (a, g a)) l).*2 = map g l.
Proof. induction l as [|a l IH]; [done|]. cbn. by f_equal. Qed.

(** ** Combination of the sentiment channels *)


Lemma mean_reindex_union (s : Series) (joint : list date) (other : list date) :
  StronglySorted Z.lt (pd.index s) → StronglySorted Z.lt other →
  joint = pd.union_index (pd.index s) other →
  pd.mean (pd.reindex s joint) = pd.mean s.
Proof.
  intros Hs Ho ->. unfold pd.mean, pd.mean_values, pd.values, pd.reindex.
  cbn [items]. rewrite fmap_snd_pair.
  unfold pd.index. by rewrite dropna_reindex_union.
Qed.

Lemma scaled_filled_items (s : Series) (joint other : list date) (c : value) :
  StronglySorted Z.lt (pd.index s) → StronglySorted Z.lt other →
  joint = pd.union_index (pd.index s) other →
  items (pd.map_values (fmul c)
           (pd.fillna (pd.reindex s joint) (pd.mean (pd.reindex s joint))))
  = map (λ d, (d, fmul c (filled s d))) joint.
Proof.
  intros Hs Ho Hj. rewrite (mean_reindex_union s joint other) by done.
  unfold pd.map_values, pd.fillna, pd.map_values, pd.reindex. cbn [items].
  rewrite !map_map. apply map_ext_in. intros d _. cbn [fst snd].
  unfold filled. by destruct (pd.lookup_date d (items s)).
Qed.

(** C6: on increasing indexes, the combined series runs over the union of
    the dates of the two channels, and at each date is
    [weight_news * news + (1 - weight_news) * social], where a channel that
    lacks the date, or has no entry there, counts with the mean of its own
    defined entries; the default of [weight_news] is 0.6. *)
Theorem combine_sentiment_outer_join_own_mean (news social : Series)
    (weight_news : value) :
  StronglySorted Z.lt (pd.index news) →
  StronglySorted Z.lt (pd.index social) →
  let joint := pd.union_index (pd.index news) (pd.index social) in
  (∀ d, d ∈ joint ↔ d ∈ pd.index news ∨ d ∈ pd.index social)
  ∧ StronglySorted Z.lt joint
  ∧ aggregation.combine_sentiment_scores news social weight_news
    = mkSeries (Some "combined_sentiment")
        (map (λ d, (d, fadd (fmul weight_news (filled news d))
                            (fmul (fsub (Some 1) weight_news) (filled social d))))
             joint)
  ∧ aggregation.weight_news_default = fin 0.6.
Proof.
  intros Hn Hs joint.
  split; [intros d; apply elem_of_union_index|].
  split; [by apply union_index_sorted|].
  split; [|done].
  unfold aggregation.combine_sentiment_scores. fold joint.
  unfold pd.rename, pd.add. cbn [items]. f_equal.
  unfold pd.index.
  rewrite (scaled_filled_items news joint (pd.index social)) by done.
  rewrite (scaled_filled_items social joint (pd.index news))
    by (done || apply union_index_comm).
  rewrite !fmap_fst_pair, union_index_diag.
  apply map_ext_in. intros d Hd%list_elem_of_In. f_equal.
  by rewrite (lookup_date_map (λ d, fmul weight_news (filled news d))),
    (lookup_date_map (λ d, fmul (fsub (Some 1) weight_news) (filled social d))).
Qed.

(** ** Ordinary least squares over the rationals *)


Lemma Qc_square_nonneg (a : Qc) : 0 ≤ a * a.
Proof.
  destruct (Qclt_le_dec a 0) as [Hneg|Hpos].
  - replace (a * a) with ((- a) * (- a)) by ring.
    assert (0 ≤ - a).
    { apply Qclt_le_weak, Qcopp_le_compat in Hneg.
      by replace (- 0) with 0 in Hneg by ring. }
    by apply Qcmult_nonneg_nonneg.
  - by apply Qcmult_nonneg_nonneg.
Qed.

Lemma qsum_nonneg (l : list Qc) : (∀ x, x ∈ l → 0 ≤ x) → 0 ≤ pd.qsum l.
Proof.
  induction l as [|x l IH]; intros Hl; [done|].
  cbn [pd.qsum foldr]. apply Qcplus_nonneg_nonneg.
  - apply Hl. by left.
  - apply IH. intros y Hy. apply Hl. by right.
Qed.

Lemma qsum_nonneg_zero (l : list Qc) :
  (∀ x, x ∈ l → 0 ≤ x) → pd.qsum l = 0 → ∀ x, x ∈ l → x = 0.
Proof.
  induction l as [|y l IH]; intros Hl Hsum x Hx; [by apply elem_of_nil in Hx|].
  cbn [pd.qsum foldr] in Hsum. fold (pd.qsum l) in Hsum.
  assert (0 ≤ y) as Hy by (apply Hl; by left).
  assert (0 ≤ pd.qsum l) as Hrest.
  { apply qsum_nonneg. intros z Hz. apply Hl. by right. }
  assert (y = 0) as Hy0.
  { apply Qcle_antisym; [|done].
    replace y with (- pd.qsum l) by (rewrite <- (Qcplus_0_r (- _)), <- Hsum; ring).
    apply Qcopp_le_compat in Hrest. by replace (- 0) with 0 in Hrest by ring. }
  apply elem_of_cons in Hx as [->|Hx]; [done|].
  apply IH; [|by rewrite Hy0, Qcplus_0_l in Hsum|done].
  intros z Hz. apply Hl. by right.
Qed.

Lemma qsum_cons (x : Qc) (l : list Qc) : pd.qsum (x :: l) = x + pd.qsum l.
Proof. reflexivity. Qed.


Lemma count_nil : count [] = 0.
Proof. unfold count. cbn [length]. change (Z.of_nat 0) with 0%Z. apply Z2Qc_inj_0. Qed.

Lemma count_cons (p : Qc * Qc) (l : list (Qc * Qc)) : count (p :: l) = count l + 1.
Proof. unfold count. cbn [length]. apply of_nat_S. Qed.

Ltac sums_base :=
  unfold sum_x, sum_y, sum_xx, sum_xy; rewrite ?count_nil;
  cbn [map fmap list_fmap pd.qsum foldr]; ring.

Ltac sums_step IH :=
  unfold sum_x, sum_y, sum_xx, sum_xy in *;
  rewrite ?count_cons, ?map_cons, ?qsum_cons, ?IH; ring.

(** Sums over the points, in terms of the five above. *)
Lemma residual_sum (pts : list (Qc * Qc)) (a b : Qc) :
  pd.qsum (map (λ p, p.2 - (a + b * p.1)) pts)
  = sum_y pts - count pts * a - b * sum_x pts.
Proof.
  induction pts as [|p l IH]; [sums_base|]. sums_step IH.
Qed.

Lemma residual_moment (pts : list (Qc * Qc)) (a b : Qc) :
  pd.qsum (map (λ p, (p.2 - (a + b * p.1)) * p.1) pts)
  = sum_xy pts - a * sum_x pts - b * sum_xx pts.
Proof. induction pts as [|p l IH]; [sums_base|]. sums_step IH. Qed.

Lemma centred_squares (pts : list (Qc * Qc)) (m : Qc) :
  pd.qsum (map (λ p, (p.1 - m) * (p.1 - m)) pts)
  = sum_xx pts - 2 * m * sum_x pts + count pts * m * m.
Proof.
  induction pts as [|p l IH]; [sums_base|]. sums_step IH.
Qed.

Lemma centred_products (pts : list (Qc * Qc)) (m k : Qc) :
  pd.qsum (map (λ p, (p.1 - m) * (p.2 - k)) pts)
  = sum_xy pts - m * sum_y pts - k * sum_x pts + count pts * m * k.
Proof.
  induction pts as [|p l IH]; [sums_base|]. sums_step IH.
Qed.

(** The residuals of another line, about those of a given one. *)
Lemma sse_shift (pts : list (Qc * Qc)) (a b a' b' : Qc) :
  sse pts a' b'
  = sse pts a b
    + pd.qsum (map (λ p, ((a' - a) + (b' - b) * p.1) * ((a' - a) + (b' - b) * p.1)) pts)
    - 2 * (a' - a) * pd.qsum (map (λ p, p.2 - (a + b * p.1)) pts)
    - 2 * (b' - b) * pd.qsum (map (λ p, (p.2 - (a + b * p.1)) * p.1) pts).
Proof.
  unfold sse. induction pts as [|p l IH]; [sums_base|].
  rewrite !map_cons, !qsum_cons, IH. ring.
Qed.

Section least_squares.
Variable pts : list (Qc * Qc).
Variables m k b : Qc.
Hypothesis count_ne0 : count pts ≠ 0.
Hypothesis mean_x : m = sum_x pts / count pts.
Hypothesis mean_y : k = sum_y pts / count pts.
Hypothesis slope :
  b * pd.qsum (map (λ p, (p.1 - m) * (p.1 - m)) pts)
  = pd.qsum (map (λ p, (p.1 - m) * (p.2 - k)) pts).

(** The line through the means with slope (centred products) over (centred
    squares) satisfies the normal equations, so it is a least-squares line,
    and when two of the abscissas differ its slope is the only one. *)
Lemma centred_slope_normal :
  pd.qsum (map (λ p, p.2 - ((k - b * m) + b * p.1)) pts) = 0
  ∧ pd.qsum (map (λ p, (p.2 - ((k - b * m) + b * p.1)) * p.1) pts) = 0.
Proof.
  pose proof slope as Hb.
  rewrite centred_squares, centred_products in Hb.
  rewrite residual_sum, residual_moment.
  assert (sum_x pts = count pts * m) as Hx by (rewrite mean_x; by field).
  assert (sum_y pts = count pts * k) as Hy by (rewrite mean_y; by field).
  revert Hb. generalize (sum_xx pts) (sum_xy pts). rewrite Hx, Hy.
  generalize (count pts). intros N Sxx Sxy Hb.
  split; [ring|].
  transitivity ((Sxy - m * (N * k) - k * (N * m) + N * m * k)
                - b * (Sxx - 2 * m * (N * m) + N * m * m)); [ring|].
  rewrite Hb. ring.
Qed.

Lemma centred_slope_is_ols : ols_slope pts b.
Proof.
  exists (k - b * m). intros a' b'.
  destruct centred_slope_normal as [He Hex].
  rewrite (sse_shift pts (k - b * m) b a' b'), He, Hex.
  match goal with
  | |- _ ≤ ?s + ?q - _ - _ => replace (s + q - _ - _) with (s + q) by ring
  end.
  rewrite <- (Qcplus_0_r (sse pts (k - b * m) b)) at 1.
  apply Qcplus_le_mono_l, qsum_nonneg.
  intros x [p [-> _]]%list_elem_of_fmap. apply Qc_square_nonneg.
Qed.

Lemma centred_slope_unique (b2 : Qc) :
  (∃ p q, p ∈ pts ∧ q ∈ pts ∧ p.1 ≠ q.1) →
  ols_slope pts b2 → b2 = b.
Proof.
  intros (p & q & Hp & Hq & Hpq) [a2 Hmin].
  destruct centred_slope_normal as [He Hex].
  set (a := k - b * m) in *.
  assert (Hle : sse pts a2 b2 ≤ sse pts a b) by apply Hmin.
  rewrite (sse_shift pts a b a2 b2), He, Hex in Hle.
  set (Q := pd.qsum (map (λ p, ((a2 - a) + (b2 - b) * p.1)
                               * ((a2 - a) + (b2 - b) * p.1)) pts)) in *.
  assert (HQ0 : Q = 0).
  { apply Qcle_antisym.
    - apply (Qcplus_le_mono_l _ _ (sse pts a b)).
      rewrite Qcplus_0_r.
      by replace (sse pts a b + Q) with (sse pts a b + Q - 2 * (a2 - a) * 0
                                         - 2 * (b2 - b) * 0) by ring.
    - apply qsum_nonneg. intros x [p' [-> _]]%list_elem_of_fmap.
      apply Qc_square_nonneg. }
  assert (Hzero : ∀ p', p' ∈ pts → (a2 - a) + (b2 - b) * p'.1 = 0).
  { intros p' Hp'.
    assert (((a2 - a) + (b2 - b) * p'.1) * ((a2 - a) + (b2 - b) * p'.1) = 0) as Hsq.
    { apply (qsum_nonneg_zero
               (map (λ p, ((a2 - a) + (b2 - b) * p.1)
                          * ((a2 - a) + (b2 - b) * p.1)) pts)).
      - intros x [p0 [-> _]]%list_elem_of_fmap. apply Qc_square_nonneg.
      - exact HQ0.
      - apply list_elem_of_fmap. by exists p'. }
    by apply Qcmult_integral in Hsq as [?|?]. }
  pose proof (Hzero p Hp) as H1. pose proof (Hzero q Hq) as H2.
  assert ((b2 - b) * (p.1 - q.1) = 0) as Hdiff.
  { transitivity (((a2 - a) + (b2 - b) * p.1) - ((a2 - a) + (b2 - b) * q.1)); [ring|].
    rewrite H1, H2. ring. }
  apply Qcmult_integral in Hdiff as [Hb0|Hpq0].
  - rewrite <- (Qcplus_0_l b), <- Hb0. ring.
  - destruct Hpq. rewrite <- (Qcplus_0_l q.1), <- Hpq0. ring.
Qed.
End least_squares.

(** ** The rolling trend slope *)


Lemma arange_abscissas (window : Z) :
  np.arange window = map Some (abscissas window).
Proof. unfold np.arange, abscissas. by rewrite map_map. Qed.

Lemma np_sum_finite (qs : list Qc) : np.sum (map Some qs) = Some (pd.qsum qs).
Proof. apply py_sum_finite. Qed.

Lemma dropna_finite (qs : list Qc) : pd.dropna (map Some qs) = qs.
Proof.
  induction qs as [|q qs IH]; [done|].
  rewrite map_cons, dropna_cons. by rewrite IH.
Qed.

Lemma zip_with_pairs {A B C : Type} (f : A → B → C) (l : list A) (k : list B) :
  zip_with f l k = map (λ p, f p.1 p.2) (zip l k).
Proof.
  revert k. induction l as [|x l IH]; intros [|y k]; [done..|].
  cbn. by rewrite IH.
Qed.

Lemma zip_map_both {A B A' B' : Type} (f : A → A') (g : B → B')
    (l : list A) (k : list B) :
  zip (map f l) (map g k) = map (λ p, (f p.1, g p.2)) (zip l k).
Proof.
  revert k. induction l as [|x l IH]; intros [|y k]; [done..|].
  cbn. by rewrite <- IH.
Qed.

Lemma map_fst_zip {A B : Type} (l : list A) (k : list B) :
  length l = length k → map fst (zip l k) = l.
Proof. intros H. apply fst_zip. lia. Qed.

Lemma map_snd_zip {A B : Type} (l : list A) (k : list B) :
  length l = length k → map snd (zip l k) = k.
Proof. intros H. apply snd_zip. lia. Qed.

Lemma abscissas_length (window : Z) : length (abscissas window) = Z.to_nat window.
Proof. unfold abscissas. by rewrite length_map, length_seq. Qed.

Lemma iloc_length (a : list value) (start stop : Z) :
  (0 ≤ start ≤ stop)%Z → (stop ≤ Z.of_nat (length a))%Z →
  length (price_features.iloc a start stop) = Z.to_nat (stop - start).
Proof.
  intros Hs Hl. unfold price_features.iloc. rewrite length_take, length_drop. lia.
Qed.

(** On a full window of defined values, [slope_at] is the window size times
    the slope of the least-squares line of the window against its x-axis. *)
Lemma slope_at_full_window (log_price : list value) (window : Z) (i : nat)
    (ys : list Qc) :
  (2 ≤ window ≤ Z.of_nat i + 1)%Z →
  (i < length log_price)%nat →
  price_features.iloc log_price (Z.of_nat i + 1 - window) (Z.of_nat i + 1)
    = map Some ys →
  ∃ b, ols_slope (zip (abscissas window) ys) b
       ∧ (∀ b', ols_slope (zip (abscissas window) ys) b' → b' = b)
       ∧ price_features.slope_at log_price window i = Some (b * Qc_of_Z window).
Proof.
  intros Hw Hi Hy.
  assert (length ys = Z.to_nat window) as Hlen.
  { rewrite <- (length_map Some ys), <- Hy, iloc_length by lia. lia. }
  set (xs := abscissas window). set (pts := zip xs ys).
  assert (length xs = length ys) as Hxy by (subst xs; by rewrite abscissas_length).
  destruct (Z.to_nat window) as [|[|n]] eqn:Hn; [lia|lia|].
  assert (count pts = Qc_of_Z (Z.of_nat (S (S n)))) as Hcount.
  { unfold count, pts. by rewrite length_zip, Hxy, Hlen, Nat.min_id. }
  assert (count pts ≠ 0) as Hc0 by (rewrite Hcount; apply of_nat_S_ne0).
  assert (sum_x pts = pd.qsum xs) as Hsx by (unfold sum_x, pts; by rewrite map_fst_zip).
  assert (sum_y pts = pd.qsum ys) as Hsy by (unfold sum_y, pts; by rewrite map_snd_zip).
  set (m := sum_x pts / count pts). set (k := sum_y pts / count pts).
  set (D := pd.qsum (map (λ p, (p.1 - m) * (p.1 - m)) pts)).
  set (C := pd.qsum (map (λ p, (p.1 - m) * (p.2 - k)) pts)).
  assert (Hfirst : ∃ y0 y1 ys', ys = y0 :: y1 :: ys'
            ∧ xs = Qc_of_Z 0 :: Qc_of_Z 1 :: map (λ j, Qc_of_Z (Z.of_nat j)) (seq 2 n)).
  { destruct ys as [|y0 [|y1 ys']]; [done..|]. exists y0, y1, ys'.
    split; [done|]. unfold xs, abscissas. by rewrite Hn. }
  destruct Hfirst as (y0 & y1 & ys' & Hys & Hxs).
  assert (Hp0 : (Qc_of_Z 0, y0) ∈ pts) by (unfold pts; rewrite Hys, Hxs; by left).
  assert (Hp1 : (Qc_of_Z 1, y1) ∈ pts) by (unfold pts; rewrite Hys, Hxs; right; by left).
  assert (D ≠ 0) as HD.
  { intros HD0.
    assert (Hz : ∀ p, p ∈ pts → (p.1 - m) * (p.1 - m) = 0).
    { intros p Hp.
      apply (qsum_nonneg_zero (map (λ p, (p.1 - m) * (p.1 - m)) pts)).
      - intros x [p0 [-> _]]%list_elem_of_fmap. apply Qc_square_nonneg.
      - exact HD0.
      - apply list_elem_of_fmap. by exists p. }
    pose proof (Hz _ Hp0) as H0. pose proof (Hz _ Hp1) as H1. cbn [fst] in H0, H1.
    apply Qcmult_integral in H0 as H0'. apply Qcmult_integral in H1 as H1'.
    assert (Qc_of_Z 0 - m = 0) as E0 by tauto.
    assert (Qc_of_Z 1 - m = 0) as E1 by tauto.
    assert (Qc_of_Z 0 = Qc_of_Z 1) as Heq.
    { transitivity m.
      - rewrite <- (Qcplus_0_l m), <- E0. ring.
      - rewrite <- (Qcplus_0_l m), <- E1. ring. }
    by apply Z2Qc_inj in Heq. }
  exists (C / D).
  assert (Hslope : C / D * D = C) by (by field).
  split; [by apply (centred_slope_is_ols pts m k)|].
  split.
  { intros b'. apply (centred_slope_unique pts m k); [done..|].
    exists (Qc_of_Z 0, y0), (Qc_of_Z 1, y1). repeat split; [done..|].
    cbn. intros H%Z2Qc_inj. lia. }
  unfold price_features.slope_at.
  rewrite bool_decide_eq_false_2 by lia.
  rewrite Hy, arange_abscissas. fold xs. cbv zeta.
  assert (np.mean (map Some xs) = Some m) as ->.
  { unfold np.mean. rewrite np_sum_finite, length_map, Hxy, Hlen, fdiv_of_nat_S.
    unfold m. by rewrite Hsx, Hcount. }
  assert (pd.mean_values (map Some ys) = Some k) as ->.
  { unfold pd.mean_values. rewrite dropna_finite, Hlen, fdiv_of_nat_S.
    unfold k. by rewrite Hsy, Hcount. }
  assert (map (λ xi, fmul (fsub xi (Some m)) (fsub xi (Some m))) (map Some xs)
          = map Some (map (λ x, (x - m) * (x - m)) xs)) as ->.
  { by rewrite !map_map. }
  assert (zip_with (λ xi yi, fmul (fsub xi (Some m)) (fsub yi (Some k)))
            (map Some xs) (map Some ys)
          = map Some (map (λ p, (p.1 - m) * (p.2 - k)) pts)) as ->.
  { rewrite zip_with_pairs, zip_map_both. unfold pts. by rewrite !map_map. }
  rewrite !np_sum_finite. fold C.
  assert (pd.qsum (map (λ x, (x - m) * (x - m)) xs) = D) as ->.
  { unfold D.
    transitivity (pd.qsum (map (λ x, (x - m) * (x - m)) (map fst pts))).
    - do 2 f_equal. symmetry. by apply map_fst_zip.
    - by rewrite map_map. }
  unfold fne0, feq0. rewrite bool_decide_eq_false_2 by (intros [= ?]; done).
  cbn [negb]. unfold fdiv. rewrite decide_False by done. done.
Qed.

Lemma slope_at_short_window (log_price : list value) (window : Z) (i : nat) :
  (Z.of_nat i + 1 < window)%Z → price_features.slope_at log_price window i = NaN.
Proof.
  intros H. unfold price_features.slope_at. by rewrite bool_decide_eq_true_2.
Qed.

(** A window of one observation, or of none, has no least-squares slope:
    the guard on the denominator gives [NaN]. *)
Lemma slope_at_degenerate_window (log_price : list value) (window : Z) (i : nat) :
  (window ≤ 1)%Z → price_features.slope_at log_price window i = NaN.
Proof.
  intros Hw. unfold price_features.slope_at.
  case_bool_decide; [done|]. cbv zeta.
  assert (fne0 (np.sum (map (λ xi, fmul (fsub xi (np.mean (np.arange window)))
                                        (fsub xi (np.mean (np.arange window))))
                            (np.arange window))) = false) as ->; [|done].
  destruct (decide (window = 1%Z)) as [->|Hne]; [vm_compute; reflexivity|].
  unfold np.arange. replace (Z.to_nat window) with 0%nat by lia. reflexivity.
Qed.

Lemma foldl_fadd_missing (acc : value) (l : list value) :
  NaN ∈ l → foldl fadd acc l = NaN.
Proof.
  revert acc. induction l as [|v l IH]; intros acc Hin.
  { by apply elem_of_nil in Hin. }
  apply elem_of_cons in Hin as [<-|Hin]; cbn [foldl].
  - destruct acc; apply foldl_fadd_nan.
  - by apply IH.
Qed.

(** A missing logarithm in a full window makes the entry undefined. *)
Lemma slope_at_missing_value (log_price : list value) (window : Z) (i : nat) :
  (window ≤ Z.of_nat i + 1)%Z →
  (i < length log_price)%nat →
  NaN ∈ price_features.iloc log_price (Z.of_nat i + 1 - window) (Z.of_nat i + 1) →
  price_features.slope_at log_price window i = NaN.
Proof.
  intros Hw Hi Hnan.
  destruct (decide (window ≤ 1)%Z) as [Hsmall|Hbig].
  { by apply slope_at_degenerate_window. }
  unfold price_features.slope_at.
  rewrite bool_decide_eq_false_2 by lia. cbv zeta.
  set (y := price_features.iloc _ _ _) in *.
  set (x := np.arange window). set (xm := np.mean x). set (ym := pd.mean_values y).
  assert (np.sum (zip_with (λ xi yi, fmul (fsub xi xm) (fsub yi ym)) x y) = NaN) as ->.
  { apply foldl_fadd_missing.
    apply list_elem_of_lookup in Hnan as [j Hj].
    assert (length y = Z.to_nat window) as Hylen.
    { unfold y. rewrite iloc_length by lia. lia. }
    assert (length x = Z.to_nat window) as Hxlen.
    { unfold x, np.arange. by rewrite length_map, length_seq. }
    destruct (lookup_lt_is_Some_2 x j) as [xj Hxj].
    { rewrite Hxlen, <- Hylen. by eapply lookup_lt_Some. }
    apply list_elem_of_lookup. exists j.
    rewrite lookup_zip_with, Hxj. cbn. unfold value in *. rewrite Hj. cbn.
    by destruct (fsub xj xm). }
  by destruct (fne0 _).
Qed.

(** C5: on a table with a [Close] column and a date index,
    [rolling_trend_slope] returns a series over the index of the table;
    its entry at a position with fewer than [window] observations up to it
    is undefined; at a position with at least [window] of them (2 at least),
    all with a defined logarithm, it is [window] times the slope of the
    least-squares line of these logarithms against 0, ..., window - 1, a
    slope that is unique; so a table with fewer rows than the window (60 by
    default) gets no defined entry at all. *)
Theorem rolling_trend_slope_scaled_ols (np_log : value → value)
    (df : PriceFrame) (window : Z) :
  pd.has_column (frame df) "Close" = true →
  datetime_index df = true →
  let log_price := map np_log (pd.values (pd.column (frame df) "Close")) in
  ∃ out,
    price_features.rolling_trend_slope np_log df window = Ok out
    ∧ pd.index out = (rows (frame df)).*1
    ∧ (∀ i v, pd.values out !! i = Some v →
         ((Z.of_nat i + 1 < window)%Z → v = NaN)
         ∧ ((2 ≤ window ≤ Z.of_nat i + 1)%Z →
            ∀ ys,
              price_features.iloc log_price (Z.of_nat i + 1 - window)
                (Z.of_nat i + 1) = map Some ys →
              ∃ b, ols_slope (zip (abscissas window) ys) b
                   ∧ (∀ b', ols_slope (zip (abscissas window) ys) b' → b' = b)
                   ∧ v = Some (b * Qc_of_Z window)))
    ∧ ((Z.of_nat (length (rows (frame df))) < window)%Z →
       ∀ v, v ∈ pd.values out → v = NaN).
Proof.
  intros Hclose Hdt log_price.
  unfold price_features.rolling_trend_slope, price_features._validate_close.
  rewrite Hclose, Hdt. cbn [negb]. fold log_price.
  set (slopes := map (price_features.slope_at log_price window)
                     (seq 0 (length log_price))).
  assert (length log_price = length (rows (frame df))) as Hlen.
  { unfold log_price, pd.values, pd.column. cbn [items].
    by rewrite length_map, length_fmap, length_map. }
  assert (pd.index (pd.column (frame df) "Close") = (rows (frame df)).*1) as Hidx.
  { unfold pd.index, pd.column. cbn [items]. by rewrite <- list_fmap_compose. }
  assert (length slopes = length (rows (frame df))) as Hslen.
  { unfold slopes. by rewrite length_map, length_seq. }
  assert (Hle : (length slopes
                 ≤ length (pd.index (pd.column (frame df) "Close")))%nat).
  { rewrite Hslen, Hidx, length_fmap. lia. }
  assert (Hge : (length (pd.index (pd.column (frame df) "Close"))
                 ≤ length slopes)%nat).
  { rewrite Hslen, Hidx, length_fmap. lia. }
  eexists. split; [reflexivity|].
  assert (Hvals : pd.values
            {| name := Some "rolling_trend_slope";
               items := zip (pd.index (pd.column (frame df) "Close")) slopes |}
          = slopes).
  { unfold pd.values. cbn [items]. apply snd_zip. exact Hle. }
  assert (Hat : ∀ i v, slopes !! i = Some v →
            (i < length log_price)%nat
            ∧ v = price_features.slope_at log_price window i).
  { intros i v Hv. unfold slopes in Hv.
    rewrite list_lookup_fmap in Hv.
    destruct (seq 0 (length log_price) !! i) as [j|] eqn:Hj; [|done].
    apply lookup_seq in Hj as [-> Hlt]. by injection Hv as <-. }
  split.
  { rewrite <- Hidx. unfold pd.index at 1. cbn [items].
    apply fst_zip. exact Hge. }
  rewrite Hvals. split.
  - intros i v Hv. apply Hat in Hv as [Hi ->]. split.
    + apply slope_at_short_window.
    + intros Hw ys Hys. by apply slope_at_full_window.
  - intros Hshort v Hv. apply list_elem_of_lookup in Hv as [i Hv].
    apply Hat in Hv as [Hi ->]. apply slope_at_short_window. lia.
Qed.

(** * The theorems at work on concrete inputs *)



(** The same series through the price extractor's [_zscore], and the
    numbers behind both: the mean is 0.10000000000000002, one unit in the
    last place above the entries. *)
Example zscore_of_tenths :
  pd64.mean seq_sum ex_tenths = 0x1.999999999999bp-4%float
  ∧ pd64.std seq_sum ex_tenths = 0x1p-56%float
  ∧ pd64.values (price_features64._zscore seq_sum ex_tenths)
    = [(-1)%float; (-1)%float; (-1)%float].
Proof. repeat split; vm_compute; reflexivity. Qed.

(** A series that is not degenerate is standardised as usual, and keeps its
    missing entries. *)
Example zscore_regular :
  items (prevailing_bias_model._zscore sqrt_floor (Some ex_price) "price_bias_z")
  = [(1%Z, fin (-1)); (2%Z, NaN); (3%Z, fin 1)].
Proof. compute_done. Qed.

Lemma prevailing_bias_renormalized_witness :
  let features :=
    prevailing_bias_model.align_and_standardize sqrt_floor
      (Some ex_price) (Some ex_flat) None None None in
  let ws := used_weights None (Some ex_price) (Some ex_flat) None None None in
  pd.DataFrame_empty features = false
  ∧ feq0 (py_sum ws) = false
  ∧ prevailing_bias_model.compute_prevailing_bias sqrt_floor
      (Some ex_price) (Some ex_flat) None None None None
    = mkDataFrame (columns features ++ [Some "prevailing_bias"])
        (map (λ r, (r.1, r.2 ++ [composite ws r.2])) (rows features))
  ∧ ws = [fin 0.4; fin 0.2].
Proof.
  intros features ws.
  assert (H1 : pd.DataFrame_empty features = false) by (vm_compute; reflexivity).
  assert (H2 : feq0 (py_sum ws) = false) by (vm_compute; reflexivity).
  split; [exact H1|]. split; [exact H2|].
  destruct (prevailing_bias_renormalized sqrt_floor
              (Some ex_price) (Some ex_flat) None None None None H1 H2)
    as (Hframe & _ & Hdefault).
  split; [exact Hframe|].
  apply Hdefault; (by eexists) || reflexivity.
Defined.

(** The frame of that call: price weighs 2/3 and news 1/3. *)
Example prevailing_bias_price_and_news :
  prevailing_bias_model.compute_prevailing_bias sqrt_floor
    (Some ex_price) (Some ex_flat) None None None None
  = mkDataFrame
      [Some "price_bias_z"; Some "news_bias_z"; Some "prevailing_bias"]
      [(1%Z, [fin (-1); fin 0; fin (-2 # 3)]);
       (2%Z, [NaN; fin 0; NaN]);
       (3%Z, [fin 1; fin 0; fin (2 # 3)])].
Proof. compute_done. Qed.

Lemma zero_weight_sum_returns_features_witness :
  let weights : option (gmap string value) := Some {[ "price" := Some 0 ]} in
  py_sum (used_weights weights (Some ex_price) (Some ex_flat) None None None)
    = Some 0
  ∧ prevailing_bias_model.compute_prevailing_bias sqrt_floor
      (Some ex_price) (Some ex_flat) None None None weights
    = prevailing_bias_model.align_and_standardize sqrt_floor
        (Some ex_price) (Some ex_flat) None None None.
Proof.
  intros weights.
  assert (H : py_sum (used_weights weights (Some ex_price) (Some ex_flat)
                        None None None) = Some 0) by compute_done.
  split; [exact H|].
  exact (proj1 (zero_weight_sum_returns_features sqrt_floor
                  (Some ex_price) (Some ex_flat) None None None weights H)).
Defined.


(** The join is inner: price on the dates 1, 2, 3 and news on 2, 3, 4 leave
    the dates 2 and 3. *)
Example align_inner_join :
  (rows (prevailing_bias_model.align_and_standardize sqrt_floor
           (Some (series_of [(1%Z, Some 1%Q); (2%Z, Some 2%Q); (3%Z, Some 3%Q)]))
           (Some (series_of [(2%Z, Some 5%Q); (3%Z, Some 4%Q); (4%Z, Some 3%Q)]))
           None None None)).*1 = [2; 3]%Z.
Proof. compute_done. Qed.

Lemma rolling_trend_slope_scaled_ols_witness :
  pd.has_column (frame ex_prices) "Close" = true
  ∧ datetime_index ex_prices = true
  ∧ ∃ out,
      price_features.rolling_trend_slope log_series ex_prices
        price_features.window_default = Ok out
      ∧ ∀ v, v ∈ pd.values out → v = NaN.
Proof.
  assert (H1 : pd.has_column (frame ex_prices) "Close" = true)
    by (vm_compute; reflexivity).
  assert (H2 : datetime_index ex_prices = true) by reflexivity.
  split; [exact H1|]. split; [exact H2|].
  destruct (rolling_trend_slope_scaled_ols log_series ex_prices
              price_features.window_default H1 H2)
    as (out & Hout & _ & _ & Hshort).
  exists out. split; [exact Hout|].
  apply Hshort. vm_compute. reflexivity.
Defined.

(** With a window of 3 on the logarithms 1, 2, 4, 3: the slopes of the two
    full windows are 3/2 and 1/2, and the entries three times that. *)
Example slope_at_window_3 :
  map (price_features.slope_at [fin 1; fin 2; fin 4; fin 3] 3) [0; 1; 2; 3]%nat
  = [NaN; NaN; fin (9 # 2); fin (3 # 2)].
Proof. compute_done. Qed.

Lemma combine_sentiment_outer_join_own_mean_witness :
  StronglySorted Z.lt (pd.index ex_news)
  ∧ StronglySorted Z.lt (pd.index ex_social)
  ∧ aggregation.combine_sentiment_scores ex_news ex_social
      aggregation.weight_news_default
    = mkSeries (Some "combined_sentiment")
        (map (λ d, (d, fadd (fmul aggregation.weight_news_default (filled ex_news d))
                            (fmul (fsub (Some 1) aggregation.weight_news_default)
                                  (filled ex_social d))))
             [1; 2; 3]%Z).
Proof.
  assert (H1 : StronglySorted Z.lt (pd.index ex_news))
    by (repeat constructor; lia).
  assert (H2 : StronglySorted Z.lt (pd.index ex_social))
    by (repeat constructor; lia).
  split; [exact H1|]. split; [exact H2|].
  destruct (combine_sentiment_outer_join_own_mean ex_news ex_social
              aggregation.weight_news_default H1 H2) as (_ & _ & H & _).
  exact H.
Defined.

(** The example of the specification: the gap of news is filled with 0.4,
    that of social with 0.2, and the combination is 0.2, 0.28, 0.48. *)
Example combine_sentiment_example :
  filled ex_news 2%Z = fin 0.4 ∧ filled ex_social 1%Z = fin 0.2
  ∧ items (aggregation.combine_sentiment_scores ex_news ex_social
             aggregation.weight_news_default)
    = [(1%Z, fin 0.2); (2%Z, fin 0.28); (3%Z, fin 0.48)].
Proof. repeat split; compute_done. Qed.

Lemma polymarket_bias_recentred_witness :
  NoDup ex_markets.*1
  ∧ pd.DataFrame_empty (pd.concat_inner ex_markets.*2) = false
  ∧ feq0 (py_sum (market_weights ex_markets None)) = false
  ∧ polymarket.compute_polymarket_bias ex_markets None
    = mkSeries (Some "polymarket_bias")
        (map (λ r, (r.1, py_sum (zip_with fmul
                                   (map (λ v, fsub v (fin 0.5)) r.2)
                                   (market_weights ex_markets None))))
             (rows (pd.concat_inner ex_markets.*2))).
Proof.
  assert (H1 : NoDup ex_markets.*1) by (apply NoDup_singleton).
  assert (H2 : pd.DataFrame_empty (pd.concat_inner ex_markets.*2) = false)
    by (vm_compute; reflexivity).
  assert (H3 : feq0 (py_sum (market_weights ex_markets None)) = false)
    by (vm_compute; reflexivity).
  split; [exact H1|]. split; [exact H2|]. split; [exact H3|].
  exact (proj1 (polymarket_bias_recentred ex_markets None) H1 H2 H3).
Defined.

(** Two markets at 0.7 with the default weights of 1 each give 0.4: the
    weighted sum is not divided by the sum of the weights. *)
Example polymarket_bias_two_markets :
  items (polymarket.compute_polymarket_bias
           [("m", pd.Series_const (fin 0.7) [1; 2]%Z None);
            ("k", pd.Series_const (fin 0.7) [1; 2]%Z None)] None)
  = [(1%Z, fin 0.4); (2%Z, fin 0.4)].
Proof. compute_done. Qed.

Lemma empty_weights_are_default_witness :
  pd.DataFrame_empty
    (prevailing_bias_model.align_and_standardize sqrt_floor
       (Some ex_price) (Some ex_flat) None None None) = false
  ∧ Some "prevailing_bias"
      ∈ columns (prevailing_bias_model.compute_prevailing_bias sqrt_floor
                   (Some ex_price) (Some ex_flat) None None None (Some ∅)).
Proof.
  assert (H : pd.DataFrame_empty
                (prevailing_bias_model.align_and_standardize sqrt_floor
                   (Some ex_price) (Some ex_flat) None None None) = false)
    by (vm_compute; reflexivity).
  split; [exact H|].
  exact (proj2 (proj2 (empty_weights_are_default sqrt_floor
                         (Some ex_price) (Some ex_flat) None None None)) H).
Defined.

Lemma divergence_of_nothing_is_empty_witness :
  pd.empty (pd.Series_empty None) = true
  ∧ fragility.compute_polymarket_divergence sqrt_floor ex_price
      (pd.Series_empty None) 20
    = pd.Series_empty None.
Proof.
  assert (H : pd.empty (pd.Series_empty None) = true) by reflexivity.
  split; [exact H|].
  exact (divergence_of_nothing_is_empty sqrt_floor ex_price (pd.Series_empty None)
           20 (or_intror (or_introl H))).
Defined.

(** Without smoothing, the divergence is the difference of the two columns
    standardised over the common dates. *)
Example divergence_unsmoothed :
  items (fragility.compute_polymarket_divergence sqrt_floor
           (series_of [(1%Z, Some 1%Q); (2%Z, Some 3%Q); (3%Z, Some 3%Q)])
           (series_of [(1%Z, Some 3%Q); (2%Z, Some 1%Q)]) 1)
  = [(1%Z, fin (-2)); (2%Z, fin 2)].
Proof. compute_done. Qed.

Lemma aggregate_daily_sentiment_validation_witness :
  aggregation.table_empty ex_items = false
  ∧ "channel" ∈ ({[ "date"; "channel"; "sentiment" ]} : gset string)
  ∧ "channel" ∉ aggregation.column_set ex_items
  ∧ ∃ missing,
      aggregation.aggregate_daily_sentiment ex_items
        = Raise (ValueError "Missing columns: " missing)
      ∧ "channel" ∈ missing.
Proof.
  assert (H1 : aggregation.table_empty ex_items = false) by (vm_compute; reflexivity).
  assert (H2 : "channel" ∈ ({[ "date"; "channel"; "sentiment" ]} : gset string))
    by compute_done.
  assert (H3 : "channel" ∉ aggregation.column_set ex_items) by compute_done.
  split; [exact H1|]. split; [exact H2|]. split; [exact H3|].
  destruct (proj1 (proj2 (aggregate_daily_sentiment_validation ex_items))
              H1 "channel" H2 H3) as (missing & Hraise & Hin & _).
  exists missing. split; [exact Hraise | exact Hin].
Defined.

(** A table with the three columns is grouped by date and channel. *)
Example aggregate_daily_sentiment_example :
  aggregation.aggregate_daily_sentiment
    (mkItemTable 3 (Some [2; 1; 2]%Z) (Some ["news"; "social"; "news"])
       (Some [fin 1; fin 0.5; fin 0]) ∅)
  = Ok (mkDataFrame [Some "news"; Some "social"]
          [(1%Z, [NaN; fin 0.5]); (2%Z, [fin 0.5; NaN])]).
Proof. compute_done. Qed.

(** * Further properties of the code *)

(** ** Rolling windows and series over one index *)

Lemma window_at_length (window : Z) (l : list value) (i : nat) :
  (length (pd.window_at window l i) ≤ S i)%nat.
Proof. unfold pd.window_at. rewrite length_take. lia. Qed.

Lemma window_at_current (window : Z) (l : list value) (i : nat) (c : value) :
  (1 ≤ window)%Z → l !! i = Some c → c ∈ pd.window_at window l i.
Proof.
  intros Hw Hi. unfold pd.window_at.
  set (start := Z.to_nat (Z.of_nat i + 1 - window)).
  assert (start ≤ i)%nat by lia.
  apply list_elem_of_lookup. exists (i - start)%nat.
  rewrite lookup_take_lt by lia. rewrite lookup_drop.
  by replace (start + (i - start))%nat with i by lia.
Qed.

Lemma dropna_length (l : list value) : (length (pd.dropna l) ≤ length l)%nat.
Proof.
  induction l as [|v l IH]; [done|].
  rewrite dropna_cons. destruct v; cbn [length]; lia.
Qed.

Lemma elem_of_dropna (q : Qc) (l : list value) : q ∈ pd.dropna l ↔ Some q ∈ l.
Proof.
  induction l as [|v l IH]; [by rewrite !elem_of_nil|].
  rewrite dropna_cons. destruct v as [x|].
  - rewrite !elem_of_cons, IH. split; intros [?|?]; simplify_eq; auto.
  - rewrite elem_of_cons, IH. split; [auto|]. by intros [?|?].
Qed.

Lemma rolling_lookup (agg : list value → value) (window min_periods : Z)
    (s : Series) (i : nat) :
  items (pd.rolling agg window min_periods s) !! i
  = (λ it : date * value,
       (it.1, if bool_decide (min_periods
                              ≤ Z.of_nat (length (pd.dropna
                                   (pd.window_at window (pd.values s) i))))%Z
              then agg (pd.window_at window (pd.values s) i) else NaN))
    <$> items s !! i.
Proof. unfold pd.rolling. cbn [items]. by rewrite list_lookup_imap. Qed.

Lemma rolling_length (agg : list value → value) (window min_periods : Z) (s : Series) :
  length (items (pd.rolling agg window min_periods s)) = length (items s).
Proof. unfold pd.rolling. cbn [items]. apply length_imap. Qed.

(** A rolling aggregate is undefined as long as fewer than [min_periods]
    positions have been seen. *)
Lemma rolling_warm_up (agg : list value → value) (window min_periods : Z)
    (s : Series) (i : nat) (it : date * value) :
  (Z.of_nat i + 1 < min_periods)%Z →
  items (pd.rolling agg window min_periods s) !! i = Some it → it.2 = NaN.
Proof.
  intros Hi. rewrite rolling_lookup.
  destruct (items s !! i) as [it0|]; [|done]. intros [= <-]. cbn [snd].
  rewrite bool_decide_eq_false_2; [done|].
  pose proof (dropna_length (pd.window_at window (pd.values s) i)).
  pose proof (window_at_length window (pd.values s) i). lia.
Qed.

Lemma same_index_lookup (f : value → value → value) (a b : Series) (i : nat) :
  items (pd.same_index f a b) !! i
  = match items a !! i, items b !! i with
    | Some x, Some y => Some (x.1, f x.2 y.2)
    | _, _ => None
    end.
Proof.
  unfold pd.same_index. cbn [items]. rewrite lookup_zip_with.
  destruct (items a !! i); [|done]. by destruct (items b !! i).
Qed.

Lemma same_index_length (f : value → value → value) (a b : Series) :
  length (items a) = length (items b) →
  length (items (pd.same_index f a b)) = length (items a).
Proof. intros H. unfold pd.same_index. cbn [items]. rewrite length_zip_with. lia. Qed.

Lemma foldr_qmin_le (x : Qc) (xs : list Qc) (y : Qc) :
  y ∈ x :: xs → foldr pd.qmin x xs ≤ y.
Proof.
  induction xs as [|z xs IH]; cbn [foldr].
  - intros ->%list_elem_of_singleton. apply Qcle_refl.
  - unfold pd.qmin at 1. intros Hy. case_decide as Hz.
    + apply elem_of_cons in Hy as [->|Hy].
      * eapply Qcle_trans; [exact Hz|]. apply IH. by left.
      * apply elem_of_cons in Hy as [->|Hy]; [apply Qcle_refl|].
        eapply Qcle_trans; [exact Hz|]. apply IH. by right.
    + apply Qcnot_le_lt, Qclt_le_weak in Hz.
      apply elem_of_cons in Hy as [->|Hy]; [apply IH; by left|].
      apply elem_of_cons in Hy as [->|Hy]; [done|]. apply IH. by right.
Qed.

Lemma foldr_qmax_ge (x : Qc) (xs : list Qc) (y : Qc) :
  y ∈ x :: xs → y ≤ foldr pd.qmax x xs.
Proof.
  induction xs as [|z xs IH]; cbn [foldr].
  - intros ->%list_elem_of_singleton. apply Qcle_refl.
  - unfold pd.qmax at 1. intros Hy. case_decide as Hz.
    + apply elem_of_cons in Hy as [->|Hy]; [apply IH; by left|].
      apply elem_of_cons in Hy as [->|Hy]; [done|]. apply IH. by right.
    + apply Qcnot_le_lt, Qclt_le_weak in Hz.
      apply elem_of_cons in Hy as [->|Hy].
      * eapply Qcle_trans; [|exact Hz]. apply IH. by left.
      * apply elem_of_cons in Hy as [->|Hy]; [apply Qcle_refl|].
        eapply Qcle_trans; [|exact Hz]. apply IH. by right.
Qed.

Lemma min_values_le (l : list value) (lo q : Qc) :
  pd.min_values l = Some lo → Some q ∈ l → lo ≤ q.
Proof.
  unfold pd.min_values. intros Hmin Hq%elem_of_dropna.
  destruct (pd.dropna l) as [|x xs]; [done|]. injection Hmin as <-.
  by apply foldr_qmin_le.
Qed.

Lemma max_values_ge (l : list value) (hi q : Qc) :
  pd.max_values l = Some hi → Some q ∈ l → q ≤ hi.
Proof.
  unfold pd.max_values. intros Hmax Hq%elem_of_dropna.
  destruct (pd.dropna l) as [|x xs]; [done|]. injection Hmax as <-.
  by apply foldr_qmax_ge.
Qed.

Lemma Qc_ratio_unit (a d : Qc) : 0 ≤ a → a ≤ d → d ≠ 0 → 0 ≤ a / d ∧ a / d ≤ 1.
Proof.
  intros Ha Had Hd.
  assert (0 < d) as Hpos.
  { destruct (Qcle_lt_or_eq 0 d) as [?|?]; [by eapply Qcle_trans|done|congruence]. }
  pose proof (Qcinv_pos d Hpos) as Hinv. unfold Qcdiv. split.
  - apply Qcmult_nonneg_nonneg; [done|by apply Qclt_le_weak].
  - rewrite <- (Qcmult_inv_r d) by done.
    apply Qcmult_le_mono_nonneg_r; [by apply Qclt_le_weak|done].
Qed.

Lemma zip_with_fst {A B C D : Type} (g : A * B → C → D) (l : list (A * B))
    (k : list C) :
  length l = length k → (zip_with (λ x y, (x.1, g x y)) l k).*1 = l.*1.
Proof.
  revert k. induction l as [|x l IH]; intros [|y k] Hlen; try done.
  cbn. f_equal. apply IH. by injection Hlen.
Qed.

Lemma same_index_index (f : value → value → value) (a b : Series) :
  length (items a) = length (items b) →
  pd.index (pd.same_index f a b) = pd.index a.
Proof.
  intros H. unfold pd.index, pd.same_index. cbn [items].
  by apply (zip_with_fst (λ x y, f x.2 y.2)).
Qed.

Lemma rolling_index (agg : list value → value) (window min_periods : Z) (s : Series) :
  pd.index (pd.rolling agg window min_periods s) = pd.index s.
Proof.
  unfold pd.index. apply list_eq. intros i.
  rewrite !list_lookup_fmap, rolling_lookup. by destruct (items s !! i).
Qed.

Lemma column_index (df : DataFrame) (col : string) :
  pd.index (pd.column df col) = (rows df).*1.
Proof. unfold pd.index, pd.column. cbn [items]. by rewrite <- list_fmap_compose. Qed.

(** ** The position in the 52-week range *)

(** X1: [position_in_52w_range] refuses a table without [Close] column, then
    one whose index is not a date index; otherwise it returns a series over
    the index of the table whose entries are undefined on the first 125
    rows and, where defined, lie between 0 and 1. *)
Theorem position_in_52w_range_unit_interval (df : PriceFrame) :
  match price_features.position_in_52w_range df with
  | Raise e =>
      (pd.has_column (frame df) "Close" = false
       ∧ e = ValueError "DataFrame must contain 'Close' column" ∅)
      ∨ (pd.has_column (frame df) "Close" = true
         ∧ datetime_index df = false
         ∧ e = ValueError "DataFrame index must be DatetimeIndex" ∅)
  | Ok out =>
      pd.has_column (frame df) "Close" = true
      ∧ datetime_index df = true
      ∧ pd.index out = (rows (frame df)).*1
      ∧ ∀ i v, pd.values out !! i = Some v →
          ((i + 1 < 126)%nat → v = NaN)
          ∧ ∀ q, v = Some q → 0 ≤ q ∧ q ≤ 1
  end.
Proof.
  unfold price_features.position_in_52w_range, price_features._validate_close.
  destruct (pd.has_column (frame df) "Close") eqn:Hc; cbn [negb]; [|by left].
  destruct (datetime_index df) eqn:Hd; cbn [negb]; [|right; by auto].
  set (close := pd.column (frame df) "Close").
  set (rmin := pd.rolling pd.min_values 252 126 close).
  set (rmax := pd.rolling pd.max_values 252 126 close).
  assert (length (items rmin) = length (items close)) as Lmin by apply rolling_length.
  assert (length (items rmax) = length (items close)) as Lmax by apply rolling_length.
  split; [done|]. split; [done|]. split.
  - transitivity (pd.index (pd.same_index fdiv (pd.same_index fsub close rmin)
                                           (pd.same_index fsub rmax rmin)));
      [done|].
    rewrite same_index_index by (rewrite !same_index_length; lia).
    rewrite same_index_index by lia. apply column_index.
  - intros i v Hv. unfold pd.values, pd.rename in Hv. cbn [items] in Hv.
    rewrite list_lookup_fmap, !same_index_lookup in Hv.
    unfold rmin, rmax in Hv. rewrite !rolling_lookup in Hv.
    destruct (items close !! i) as [[d c]|] eqn:Hi; [|done].
    cbn [fmap option_fmap option_map fst snd] in Hv. injection Hv as <-.
    set (w := pd.window_at 252 (pd.values close) i).
    assert (c ∈ w) as Hcw.
    { apply window_at_current; [lia|].
      unfold pd.values. by rewrite list_lookup_fmap, Hi. }
    split.
    + intros Hshort.
      rewrite bool_decide_eq_false_2.
      * by destruct c.
      * pose proof (dropna_length w). pose proof (window_at_length 252 (pd.values close) i).
        fold w in H0. lia.
    + intros q Hq.
      destruct (bool_decide _); [|by destruct c].
      destruct c as [qc|]; [|done].
      destruct (pd.min_values w) as [lo|] eqn:Hlo; [|done].
      destruct (pd.max_values w) as [hi|] eqn:Hhi; [|done].
      cbn [fsub] in Hq. unfold fdiv in Hq.
      case_decide as Hspan; [done|]. injection Hq as <-.
      pose proof (min_values_le w lo qc Hlo Hcw) as Hle1.
      pose proof (max_values_ge w hi qc Hhi Hcw) as Hle2.
      apply Qc_ratio_unit; [| |done].
      * apply (Qcplus_le_mono_r _ _ lo).
        by replace (0 + lo) with lo by ring; replace (qc - lo + lo) with qc by ring.
      * apply (Qcplus_le_mono_r _ _ lo).
        by replace (qc - lo + lo) with qc by ring;
           replace (hi - lo + lo) with hi by ring.
Qed.

(** ** The trend of an exactly linear window *)

Lemma zip_with_image {A B : Type} (f : A → B) (l : list A) :
  zip l (map f l) = map (λ x, (x, f x)) l.
Proof. induction l as [|x l IH]; [done|]. cbn. by rewrite IH. Qed.

Lemma rolling_trend_slope_values (np_log : value → value) (df : PriceFrame)
    (window : Z) :
  pd.has_column (frame df) "Close" = true →
  datetime_index df = true →
  let log_price := map np_log (pd.values (pd.column (frame df) "Close")) in
  ∃ out,
    price_features.rolling_trend_slope np_log df window = Ok out
    ∧ pd.values out
      = map (price_features.slope_at log_price window) (seq 0 (length log_price)).
Proof.
  intros Hclose Hdt log_price.
  unfold price_features.rolling_trend_slope, price_features._validate_close.
  rewrite Hclose, Hdt. cbn [negb]. fold log_price.
  eexists. split; [reflexivity|].
  unfold pd.values at 1. cbn [items]. apply snd_zip.
  rewrite length_map, length_seq. unfold log_price, pd.values, pd.index.
  rewrite length_map, !length_fmap. lia.
Qed.

(** X2: where the logarithms of a full window lie on a line [a + g x]
    against the positions 0, ..., window - 1, the entry of
    [rolling_trend_slope] is [g * window], the growth fitted over the
    window; on a flat window ([g = 0]) it is 0. *)
Theorem rolling_trend_slope_linear (np_log : value → value) (df : PriceFrame)
    (window : Z) (i : nat) (a g : Qc) :
  pd.has_column (frame df) "Close" = true →
  datetime_index df = true →
  let log_price := map np_log (pd.values (pd.column (frame df) "Close")) in
  (2 ≤ window ≤ Z.of_nat i + 1)%Z →
  (i < length log_price)%nat →
  price_features.iloc log_price (Z.of_nat i + 1 - window) (Z.of_nat i + 1)
    = map (λ x, Some (a + g * x)) (abscissas window) →
  ∃ out,
    price_features.rolling_trend_slope np_log df window = Ok out
    ∧ pd.values out !! i = Some (Some (g * Qc_of_Z window)).
Proof.
  intros Hclose Hdt log_price Hw Hi Hline.
  destruct (rolling_trend_slope_values np_log df window Hclose Hdt)
    as (out & Hout & Hvals).
  fold log_price in Hvals.
  exists out. split; [done|].
  rewrite Hvals, list_lookup_fmap, lookup_seq_lt by done.
  cbn [fmap option_fmap option_map]. change (0 + i)%nat with i. f_equal.
  set (ys := map (λ x, a + g * x) (abscissas window)).
  assert (price_features.iloc log_price (Z.of_nat i + 1 - window) (Z.of_nat i + 1)
          = map Some ys) as Hys.
  { rewrite Hline. unfold ys. by rewrite map_map. }
  destruct (slope_at_full_window log_price window i ys Hw Hi Hys)
    as (b & _ & Huniq & ->).
  do 2 f_equal. symmetry. apply Huniq.
  exists a. intros a' b'.
  assert (sse (zip (abscissas window) ys) a g = 0) as ->.
  { unfold sse, ys. rewrite zip_with_image. apply qsum_all_zero.
    intros x [p [-> Hp]]%list_elem_of_fmap.
    apply list_elem_of_fmap in Hp as [x0 [-> _]]. cbn. ring. }
  apply qsum_nonneg. intros x [p [-> _]]%list_elem_of_fmap.
  apply Qc_square_nonneg.
Qed.

Lemma rolling_trend_slope_linear_witness :
  ∃ out,
    price_features.rolling_trend_slope log_series ex_level_prices 2 = Ok out
    ∧ pd.values out !! 2%nat = Some (Some (0 * Qc_of_Z 2)).
Proof.
  apply (rolling_trend_slope_linear log_series ex_level_prices 2 2 0 0).
  - vm_compute; reflexivity.
  - reflexivity.
  - lia.
  - vm_compute; lia.
  - compute_done.
Defined.

(** ** The inner join of the components *)

Lemma elem_of_inner_index (objs : list Series) (d : date) :
  d ∈ pd.inner_index objs → Forall (λ o, d ∈ pd.index o) objs.
Proof.
  destruct objs as [|s rest]; [by intros ?%elem_of_nil|].
  unfold pd.inner_index. intros [Hrest Hs]%list_elem_of_filter.
  by constructor.
Qed.

Lemma map_values_index (f : value → value) (s : Series) :
  pd.index (pd.map_values f s) = pd.index s.
Proof.
  unfold pd.index, pd.map_values. cbn [items].
  induction (items s) as [|it l IH]; [done|]. cbn. by f_equal.
Qed.

Lemma zscore_index (np_sqrt : value → value) (s : Series) (n : string) :
  pd.index (prevailing_bias_model._zscore np_sqrt (Some s) n) = pd.index s.
Proof.
  unfold prevailing_bias_model._zscore.
  destruct (pd.empty s) eqn:He.
  - apply bool_decide_eq_true in He. unfold pd.index. by rewrite He.
  - destruct (_ || _); [apply index_Series_const|].
    apply (map_values_index _ s).
Qed.

Lemma component_dates (np_sqrt : value → value) (given : option Series)
    (col : string) (d : date) :
  Forall (λ o, d ∈ pd.index o)
    (prevailing_bias_model.component np_sqrt given col).*2 →
  ∀ s, given = Some s → d ∈ pd.index s.
Proof.
  intros H s ->. cbn [prevailing_bias_model.component fmap list_fmap snd] in H.
  rewrite Forall_singleton in H.
  by rewrite (zscore_index np_sqrt s col) in H.
Qed.

(** The dates of the aligned frame are dates of the inner join of the
    components. *)
Lemma align_dates_inner (np_sqrt : value → value)
    price news social options polymarket (d : date) :
  d ∈ (rows (prevailing_bias_model.align_and_standardize np_sqrt
               price news social options polymarket)).*1 →
  d ∈ pd.inner_index
        (prevailing_bias_model.component np_sqrt price "price_bias_z"
         ++ prevailing_bias_model.component np_sqrt news "news_bias_z"
         ++ prevailing_bias_model.component np_sqrt social "social_bias_z"
         ++ prevailing_bias_model.component np_sqrt options "options_bias_z"
         ++ prevailing_bias_model.component np_sqrt polymarket
              "polymarket_bias_z").*2.
Proof.
  unfold prevailing_bias_model.align_and_standardize.
  case_bool_decide as He; [by intros ?%elem_of_nil|].
  cbn [pd.dropna_all pd.concat_inner rows].
  intros [r [-> Hr]]%list_elem_of_fmap.
  apply list_elem_of_filter in Hr as [_ Hr].
  by apply list_elem_of_fmap in Hr as [d [-> Hd]].
Qed.

Lemma components_dates (np_sqrt : value → value)
    price news social options polymarket (d : date) :
  d ∈ (rows (prevailing_bias_model.align_and_standardize np_sqrt
               price news social options polymarket)).*1 →
  Forall (λ given, ∀ s, given = Some s → d ∈ pd.index s)
    [price; news; social; options; polymarket].
Proof.
  intros Hd%align_dates_inner%elem_of_inner_index.
  rewrite !fmap_app, !Forall_app in Hd.
  destruct Hd as (H1 & H2 & H3 & H4 & H5).
  repeat (constructor; [by eapply component_dates|]). constructor.
Qed.

(** X3: [align_and_standardize] is an inner join: every date of the aligned
    frame is a date of every component supplied, so the frame never reaches
    beyond the shortest of them. *)
Theorem aligned_dates_in_every_component (np_sqrt : value → value)
    price news social options polymarket (s : Series) (d : date) :
  Some s ∈ [price; news; social; options; polymarket] →
  d ∈ (rows (prevailing_bias_model.align_and_standardize np_sqrt
               price news social options polymarket)).*1 →
  d ∈ pd.index s.
Proof.
  intros Hs Hd%components_dates.
  rewrite Forall_forall in Hd. by apply (Hd (Some s)).
Qed.

(** X4: a supplied component that is an empty series empties the result:
    whatever the other components and the weights, the frame returned by
    [compute_prevailing_bias] has no row and no [prevailing_bias] column. *)
Theorem empty_component_empties_prevailing_bias (np_sqrt : value → value)
    price news social options polymarket (weights : option (gmap string value))
    (s : Series) :
  Some s ∈ [price; news; social; options; polymarket] →
  pd.empty s = true →
  let out := prevailing_bias_model.compute_prevailing_bias np_sqrt
               price news social options polymarket weights in
  rows out = [] ∧ pd.has_column out "prevailing_bias" = false.
Proof.
  intros Hs He out.
  set (features := prevailing_bias_model.align_and_standardize np_sqrt
                     price news social options polymarket).
  assert (rows features = []) as Hrows.
  { destruct (rows features) as [|r l] eqn:Hr; [done|].
    assert (r.1 ∈ (rows features).*1) as Hd%components_dates.
    { rewrite Hr, fmap_cons. apply elem_of_cons. by left. }
    rewrite Forall_forall in Hd. specialize (Hd (Some s) Hs s eq_refl).
    apply bool_decide_eq_true in He. unfold pd.index in Hd.
    rewrite He in Hd. by apply elem_of_nil in Hd. }
  assert (out = features) as ->.
  { unfold out. rewrite compute_unfold. fold features.
    unfold pd.DataFrame_empty. rewrite Hrows.
    by rewrite (bool_decide_eq_true_2 ([] = [])), orb_true_r. }
  split; [done|].
  unfold pd.has_column, features. rewrite align_columns. clear.
  destruct price, news, social, options, polymarket; vm_compute; reflexivity.
Qed.

Lemma aligned_dates_in_every_component_witness :
  Some ex_flat ∈ [Some ex_price; None; None; Some ex_flat; None]
  ∧ (3%Z ∈ (rows (prevailing_bias_model.align_and_standardize sqrt_floor
                    (Some ex_price) None None (Some ex_flat) None)).*1)
  ∧ 3%Z ∈ pd.index ex_flat.
Proof.
  assert (H1 : Some ex_flat ∈ [Some ex_price; None; None; Some ex_flat; None])
    by compute_done.
  assert (H2 : 3%Z ∈ (rows (prevailing_bias_model.align_and_standardize sqrt_floor
                    (Some ex_price) None None (Some ex_flat) None)).*1)
    by compute_done.
  split; [exact H1|]. split; [exact H2|].
  exact (aligned_dates_in_every_component sqrt_floor
           (Some ex_price) None None (Some ex_flat) None ex_flat 3%Z H1 H2).
Defined.

Lemma empty_component_empties_prevailing_bias_witness :
  pd.empty (pd.Series_empty None) = true
  ∧ rows (prevailing_bias_model.compute_prevailing_bias sqrt_floor
            (Some ex_price) (Some (pd.Series_empty None)) None None None None)
    = []
  ∧ pd.has_column
      (prevailing_bias_model.compute_prevailing_bias sqrt_floor
         (Some ex_price) (Some (pd.Series_empty None)) None None None None)
      "prevailing_bias" = false.
Proof.
  split; [reflexivity|].
  apply (empty_component_empties_prevailing_bias sqrt_floor
           (Some ex_price) (Some (pd.Series_empty None)) None None None None
           (pd.Series_empty None)).
  - compute_done.
  - reflexivity.
Defined.

(** ** Rescaled weights *)

Lemma fmul_fadd_distr (c a b : value) :
  fmul c (fadd a b) = fadd (fmul c a) (fmul c b).
Proof. destruct c, a, b; cbn; try done. f_equal. ring. Qed.

Lemma foldl_fadd_fmul (c acc : value) (l : list value) :
  foldl fadd (fmul c acc) (map (fmul c) l) = fmul c (foldl fadd acc l).
Proof.
  revert acc. induction l as [|v l IH]; intros acc; [done|].
  cbn [map foldl]. rewrite <- fmul_fadd_distr. apply IH.
Qed.

Lemma py_sum_fmul (c : Qc) (l : list value) :
  py_sum (map (fmul (Some c)) l) = fmul (Some c) (py_sum l).
Proof.
  unfold py_sum. rewrite <- foldl_fadd_fmul. f_equal.
  cbn. f_equal. ring.
Qed.

Lemma zip_with_fmul_scaled (c : value) (r ws : list value) :
  zip_with fmul r (map (fmul c) ws) = map (fmul c) (zip_with fmul r ws).
Proof.
  revert ws. induction r as [|v r IH]; intros [|w ws]; cbn; try done.
  f_equal; [|apply IH]. destruct c, v, w; cbn; try done. f_equal. ring.
Qed.

Lemma feq0_fmul (c : Qc) (W : value) :
  c ≠ 0 → feq0 (fmul (Some c) W) = feq0 W.
Proof.
  intros Hc. destruct W as [x|]; [|done]. unfold feq0. cbn.
  apply bool_decide_ext. split; intros H%(inj Some); f_equal.
  - by destruct (Qcmult_integral _ _ H).
  - rewrite H. ring.
Qed.

Lemma composite_scaled (c : Qc) (ws r : list value) :
  c ≠ 0 → feq0 (py_sum ws) = false →
  composite (map (fmul (Some c)) ws) r = composite ws r.
Proof.
  intros Hc HW. unfold composite.
  rewrite zip_with_fmul_scaled, !py_sum_fmul.
  destruct (py_sum (zip_with fmul r ws)) as [A|], (py_sum ws) as [W|];
    cbn; try done.
  assert (W ≠ 0) as HW0.
  { intros ->. by apply bool_decide_eq_false in HW. }
  rewrite !decide_False; [|done|].
  - f_equal. by field.
  - intros H. by destruct (Qcmult_integral _ _ H).
Qed.

Lemma used_weights_scaled (c : Qc) (w : gmap string value)
    price news social options polymarket :
  w ≠ ∅ →
  used_weights (Some (fmul (Some c) <$> w)) price news social options polymarket
  = map (fmul (Some c))
      (used_weights (Some w) price news social options polymarket).
Proof.
  intros Hw. unfold used_weights, prevailing_bias_model.effective_weights.
  rewrite bool_decide_eq_false_2 by (by rewrite fmap_empty_iff).
  rewrite bool_decide_eq_false_2 by done.
  rewrite map_map. apply map_ext. intros kc.
  unfold prevailing_bias_model.get_weight. rewrite lookup_fmap.
  destruct (w !! kc.1); cbn; [done|]. f_equal. ring.
Qed.

(** X5: only the proportions of the weights count: multiplying every weight
    of the dictionary by one finite factor other than 0 (negative ones
    included) leaves the frame returned by [compute_prevailing_bias] as it
    is. *)
Theorem prevailing_bias_weights_rescaled (np_sqrt : value → value)
    price news social options polymarket (w : gmap string value) (c : Qc) :
  c ≠ 0 →
  prevailing_bias_model.compute_prevailing_bias np_sqrt
    price news social options polymarket (Some (fmul (Some c) <$> w))
  = prevailing_bias_model.compute_prevailing_bias np_sqrt
      price news social options polymarket (Some w).
Proof.
  intros Hc. destruct (decide (w = ∅)) as [->|Hw]; [by rewrite fmap_empty|].
  rewrite !compute_unfold. cbv zeta.
  rewrite used_weights_scaled, py_sum_fmul, feq0_fmul by done.
  destruct (pd.DataFrame_empty _); [done|].
  destruct (feq0 _) eqn:HW; [done|].
  f_equal. apply map_ext. intros r. by rewrite composite_scaled.
Qed.

Lemma prevailing_bias_weights_rescaled_witness :
  prevailing_bias_model.compute_prevailing_bias sqrt_floor
    (Some ex_price) (Some ex_news) None None None
    (Some (fmul (Some (Qc_of_Z 3))
             <$> ({[ "price" := fin 1; "news" := fin 2 ]} : gmap string value)))
  = prevailing_bias_model.compute_prevailing_bias sqrt_floor
      (Some ex_price) (Some ex_news) None None None
      (Some {[ "price" := fin 1; "news" := fin 2 ]}).
Proof.
  apply (prevailing_bias_weights_rescaled sqrt_floor
           (Some ex_price) (Some ex_news) None None None
           {[ "price" := fin 1; "news" := fin 2 ]} (Qc_of_Z 3)).
  compute_done.
Defined.

(** ** The options placeholder *)

Lemma filter_all {A : Type} (P : A → Prop) `{∀ x, Decision (P x)} (l : list A) :
  (∀ x, x ∈ l → P x) → filter P l = l.
Proof.
  induction l as [|x l IH]; [done|]. intros Hall.
  rewrite filter_cons_True by (apply Hall; by left).
  f_equal. apply IH. intros y Hy. apply Hall. by right.
Qed.

(** A series of zeros stays one under [_zscore], whatever the square root
    does. *)
Lemma zscore_zeros (np_sqrt : value → value) (idx : list date)
    (nm : option string) (n : string) :
  items (prevailing_bias_model._zscore np_sqrt
           (Some (pd.Series_const (Some 0) idx nm)) n)
  = map (λ d, (d, Some 0)) idx.
Proof.
  unfold prevailing_bias_model._zscore.
  destruct (pd.empty _) eqn:He.
  { apply bool_decide_eq_true in He. cbn [pd.Series_const items] in He.
    by destruct idx. }
  destruct (feq0 _ || isnan _) eqn:Hg.
  { by rewrite index_Series_const. }
  cbn [pd.rename pd.map_values pd.Series_const items]. rewrite map_map.
  apply map_ext. intros d. cbn [fst snd]. f_equal.
  assert (pd.mean (pd.Series_const (Some 0) idx nm) = Some 0) as ->.
  { unfold pd.mean, pd.values, pd.Series_const. cbn [items].
    rewrite fmap_snd_pair.
    apply bool_decide_eq_false in He. cbn [pd.Series_const items] in He.
    destruct idx as [|d0 idx]; [done|].
    apply mean_values_constant; [done|].
    intros x Hx. unfold pd.dropna in Hx.
    apply list_elem_of_omap in Hx as (v & Hv & Hx).
    apply list_elem_of_fmap in Hv as (? & -> & _). by simplify_eq/=. }
  destruct (pd.std np_sqrt _) as [x|]; [|done].
  apply orb_false_elim in Hg as [Hx _].
  apply bool_decide_eq_false in Hx.
  cbn. rewrite decide_False by congruence. f_equal. field. congruence.
Qed.

Lemma options_placeholder_features (np_sqrt : value → value) (price : Series) :
  rows (prevailing_bias_model.align_and_standardize np_sqrt (Some price) None None
          (Some (options_features.dummy_options_bias (pd.index price))) None)
  = map (λ d, (d, [pd.lookup_date d
                     (items (prevailing_bias_model._zscore np_sqrt (Some price)
                               "price_bias_z"));
                   Some 0]))
        (pd.index price).
Proof.
  set (zp := prevailing_bias_model._zscore np_sqrt (Some price) "price_bias_z").
  set (zo := prevailing_bias_model._zscore np_sqrt
               (Some (options_features.dummy_options_bias (pd.index price)))
               "options_bias_z").
  assert (items zo = map (λ d, (d, Some 0)) (pd.index price)) as Hzo
    by apply zscore_zeros.
  unfold prevailing_bias_model.align_and_standardize,
    prevailing_bias_model.component.
  cbn [app]. fold zp zo. rewrite bool_decide_eq_false_2 by done.
  cbn [fmap list_fmap snd]. unfold pd.dropna_all, pd.concat_inner.
  cbn [rows map].
  assert (pd.inner_index [zp; zo] = pd.index price) as ->.
  { unfold pd.inner_index.
    replace (pd.index zp) with (pd.index price)
      by (symmetry; apply zscore_index).
    apply filter_all. intros d Hd. apply Forall_singleton.
    unfold pd.index at 1. by rewrite Hzo, fmap_fst_pair. }
  rewrite filter_all.
  - apply map_ext_in. intros d Hd%list_elem_of_In. do 3 f_equal.
    rewrite Hzo. by rewrite (lookup_date_map (λ _, Some 0)).
  - intros r [d [-> Hd]]%list_elem_of_fmap. cbn [snd].
    rewrite Hzo, (lookup_date_map (λ _, Some 0)) by done.
    rewrite Forall_cons, Forall_singleton. by intros [_ ?].
Qed.

(** X6: with the price bias and the placeholder of the options component
    over the same dates, and the default weights, the options column is 0 on
    every date of the price bias and the composite is 0.8 times the
    z-scored price bias: the weight 0.10 of the placeholder stays in the
    divisor (0.4 / 0.5). *)
Theorem options_placeholder_damps_composite (np_sqrt : value → value)
    (price : Series) :
  rows (prevailing_bias_model.compute_prevailing_bias np_sqrt (Some price) None
          None (Some (options_features.dummy_options_bias (pd.index price)))
          None None)
  = map (λ d,
           let z := pd.lookup_date d
                      (items (prevailing_bias_model._zscore np_sqrt (Some price)
                                "price_bias_z")) in
           (d, [z; Some 0; fmul (fin 0.8) z]))
        (pd.index price).
Proof.
  rewrite compute_unfold. cbv zeta.
  destruct (pd.DataFrame_empty _) eqn:He.
  { rewrite options_placeholder_features.
    unfold pd.DataFrame_empty in He. rewrite align_columns in He.
    rewrite options_placeholder_features in He.
    rewrite (bool_decide_eq_false_2 (_ = [])) in He by done.
    cbn [orb] in He. apply bool_decide_eq_true in He.
    by destruct (pd.index price). }
  assert (used_weights None (Some price) None None
            (Some (options_features.dummy_options_bias (pd.index price))) None
          = [fin 0.4; fin 0.1]) as -> by compute_done.
  replace (feq0 (py_sum [fin 0.4; fin 0.1])) with false by compute_done.
  cbn [rows]. rewrite options_placeholder_features, map_map.
  apply map_ext. intros d. cbn [fst snd app]. do 4 f_equal.
  destruct (pd.lookup_date d _) as [x|]; [|done].
  unfold composite, py_sum, fin. cbn [zip_with foldl fmul fadd].
  set (a := Q2Qc 0.4). set (b := Q2Qc 0.1).
  unfold fdiv. rewrite decide_False by compute_done. f_equal.
  replace (Q2Qc 0.8) with (a / (0 + a + b)) by compute_done.
  field. compute_done.
Qed.

(** ** The prediction-market aggregate: its dates, and weights that name no
       market *)

Lemma py_sum_zeros {A : Type} (l : list A) : py_sum (map (λ _, Some 0) l) = Some 0.
Proof.
  unfold py_sum. induction l as [|a l IH]; [done|].
  cbn [map foldl fadd]. by replace (0 + 0) with 0 by ring.
Qed.

(** X7: unless the weights of the markets sum to 0, the aggregate runs over
    the dates the markets have in common (those of the first market that
    every other market has); with a weight sum of 0 it has no date. *)
Theorem polymarket_bias_index (series_dict : list (string * Series))
    (weights : option (gmap string value)) :
  NoDup series_dict.*1 →
  pd.index (polymarket.compute_polymarket_bias series_dict weights)
  = if feq0 (py_sum (market_weights series_dict weights)) then []
    else pd.inner_index series_dict.*2.
Proof.
  intros Hnd.
  destruct (decide (series_dict = [])) as [->|Hne].
  { by destruct weights. }
  destruct (pd.DataFrame_empty (pd.concat_inner series_dict.*2)) eqn:Hdf.
  - unfold polymarket.compute_polymarket_bias.
    rewrite bool_decide_eq_false_2, Hdf by done.
    unfold pd.DataFrame_empty in Hdf. cbn [pd.concat_inner columns rows] in Hdf.
    rewrite (bool_decide_eq_false_2 (map name _ = [])) in Hdf
      by (by destruct series_dict).
    cbn [orb] in Hdf. apply bool_decide_eq_true, map_eq_nil in Hdf.
    rewrite Hdf. by destruct (feq0 _).
  - destruct (feq0 (py_sum (market_weights series_dict weights))) eqn:HW.
    + unfold polymarket.compute_polymarket_bias.
      rewrite bool_decide_eq_false_2, Hdf by done.
      cbv zeta. by rewrite aligned_weights_market, HW.
    + rewrite polymarket_bias_rows by done.
      unfold pd.index. cbn [items pd.concat_inner rows].
      rewrite map_map. cbn [fst]. apply fmap_fst_pair.
Qed.

(** X8: a dictionary of weights that names none of the markets, the empty
    dictionary among them, gives the empty series: here an empty dictionary
    is not replaced by a default, every market gets the weight 0.0 and the
    weight sum is 0. *)
Theorem polymarket_bias_unnamed_markets_empty (series_dict : list (string * Series))
    (w : gmap string value) :
  (∀ mid, mid ∈ series_dict.*1 → w !! mid = None) →
  polymarket.compute_polymarket_bias series_dict (Some w) = pd.Series_empty None.
Proof.
  intros Hw. unfold polymarket.compute_polymarket_bias.
  case_bool_decide; [done|].
  destruct (pd.DataFrame_empty _); [done|].
  pose proof (aligned_weights_market series_dict (Some w)) as Haw.
  cbv zeta beta iota in Haw. cbv zeta. rewrite Haw.
  assert (market_weights series_dict (Some w)
          = map (λ _, Some 0) series_dict) as ->.
  { unfold market_weights. apply map_ext_in. intros kv Hkv%list_elem_of_In.
    rewrite Hw; [done|]. apply list_elem_of_fmap. by exists kv. }
  by rewrite py_sum_zeros.
Qed.

Lemma polymarket_bias_index_witness :
  pd.index (polymarket.compute_polymarket_bias ex_markets None)
  = if feq0 (py_sum (market_weights ex_markets None)) then []
    else pd.inner_index ex_markets.*2.
Proof.
  apply (polymarket_bias_index ex_markets None).
  apply NoDup_singleton.
Defined.

Lemma polymarket_bias_unnamed_markets_empty_witness :
  polymarket.compute_polymarket_bias ex_markets (Some ∅) = pd.Series_empty None.
Proof.
  apply (polymarket_bias_unnamed_markets_empty ex_markets ∅).
  intros mid _. apply lookup_empty.
Defined.

(** ** The divergence over the common dates *)

Lemma sub_same_dates (n1 n2 : option string) (f g : date → value)
    (idx : list date) :
  pd.sub (mkSeries n1 (map (λ d, (d, f d)) idx))
         (mkSeries n2 (map (λ d, (d, g d)) idx))
  = mkSeries None (map (λ d, (d, fsub (f d) (g d))) idx).
Proof.
  unfold pd.sub, pd.index. cbn [items].
  rewrite !fmap_fst_pair, union_index_diag.
  f_equal. apply map_ext_in. intros d Hd%list_elem_of_In.
  by rewrite (lookup_date_map f), (lookup_date_map g).
Qed.

Lemma inner_index_empty (a b : Series) :
  pd.empty a || pd.empty b = true → pd.inner_index [a; b] = [].
Proof.
  intros [Ha|Hb]%orb_true_iff; apply bool_decide_eq_true in Ha || apply bool_decide_eq_true in Hb.
  - unfold pd.inner_index, pd.index. by rewrite Ha.
  - unfold pd.inner_index. induction (pd.index a) as [|d l IH]; [done|].
    rewrite filter_cons_False; [done|].
    rewrite Forall_singleton. unfold pd.index. rewrite Hb. apply not_elem_of_nil.
Qed.

Lemma inner_index_rename (a b : Series) (n1 n2 : string) :
  pd.inner_index [pd.rename a n1; pd.rename b n2] = pd.inner_index [a; b].
Proof.
  unfold pd.inner_index. apply list_filter_iff. intros d.
  by rewrite !Forall_singleton.
Qed.

Lemma standardized_columns (np_sqrt : value → value) (prev poly : Series) :
  let aligned := pd.concat_inner [pd.rename prev "prevailing";
                                  pd.rename poly "polymarket"] in
  let common := pd.inner_index [prev; poly] in
  let p d := pd.lookup_date d (items prev) in
  let m d := pd.lookup_date d (items poly) in
  fragility.standardized np_sqrt aligned "prevailing"
  = mkSeries (Some "prevailing")
      (map (λ d, (d, column_z np_sqrt (map p common) (p d))) common)
  ∧ fragility.standardized np_sqrt aligned "polymarket"
    = mkSeries (Some "polymarket")
        (map (λ d, (d, column_z np_sqrt (map m common) (m d))) common).
Proof.
  intros aligned common p m.
  assert (pd.column aligned "prevailing"
          = mkSeries (Some "prevailing") (map (λ d, (d, p d)) common)) as Hp.
  { unfold pd.column. f_equal. unfold aligned. cbn [pd.concat_inner rows].
    rewrite inner_index_rename. fold common.
    rewrite map_map. apply map_ext. intros d. reflexivity. }
  assert (pd.column aligned "polymarket"
          = mkSeries (Some "polymarket") (map (λ d, (d, m d)) common)) as Hm.
  { unfold pd.column. f_equal. unfold aligned. cbn [pd.concat_inner rows].
    rewrite inner_index_rename. fold common.
    rewrite map_map. apply map_ext. intros d. reflexivity. }
  unfold fragility.standardized. rewrite Hp, Hm.
  unfold pd.map_values, pd.mean, pd.std, pd.values. cbn [items name].
  rewrite !fmap_snd_pair, !map_map. done.
Qed.

(** [compute_polymarket_divergence], with its table operations carried
    out. *)
Lemma divergence_unfold (np_sqrt : value → value) (prev poly : Series)
    (window : Z) :
  fragility.compute_polymarket_divergence np_sqrt prev poly window
  = if pd.empty prev || pd.empty poly then pd.Series_empty None
    else if bool_decide (pd.inner_index [prev; poly] = []) then pd.Series_empty None
    else
      let raw := mkSeries None (raw_divergence np_sqrt prev poly) in
      pd.rename
        (if bool_decide (1 < window)%Z
         then pd.rolling pd.mean_values window (Z.max 1 (window / 2)) raw
         else raw)
        "polymarket_divergence".
Proof.
  unfold fragility.compute_polymarket_divergence.
  destruct (pd.empty prev || pd.empty poly); [done|].
  assert (pd.DataFrame_empty
            (pd.concat_inner [pd.rename prev "prevailing";
                              pd.rename poly "polymarket"])
          = bool_decide (pd.inner_index [prev; poly] = [])) as ->.
  { unfold pd.DataFrame_empty. cbn [pd.concat_inner columns rows].
    rewrite (bool_decide_eq_false_2 (map name _ = [])) by done.
    rewrite inner_index_rename.
    cbn [orb]. apply bool_decide_ext. split.
    - apply map_eq_nil.
    - intros H. by rewrite H. }
  case_bool_decide; [done|]. cbv zeta.
  destruct (standardized_columns np_sqrt prev poly) as [-> ->].
  by rewrite sub_same_dates.
Qed.

Lemma raw_divergence_index (np_sqrt : value → value) (prev poly : Series) :
  (raw_divergence np_sqrt prev poly).*1 = pd.inner_index [prev; poly].
Proof. unfold raw_divergence. apply fmap_fst_pair. Qed.

Lemma dropna_all_nan (l : list value) :
  (∀ v, v ∈ l → v = NaN) → pd.dropna l = [].
Proof.
  intros H. destruct (pd.dropna l) as [|q qs] eqn:Hq; [done|].
  assert (q ∈ pd.dropna l) as Hin%elem_of_dropna by (rewrite Hq; by left).
  by apply H in Hin.
Qed.

(** X9: with a window of 1 or less nothing is smoothed: the divergence is,
    date by date over the dates the two series share, the difference of
    their entries, each standardised with the mean and the population
    standard deviation of its series over those dates. *)
Theorem divergence_without_smoothing (np_sqrt : value → value) (prev poly : Series)
    (window : Z) :
  (window ≤ 1)%Z →
  items (fragility.compute_polymarket_divergence np_sqrt prev poly window)
  = raw_divergence np_sqrt prev poly.
Proof.
  intros Hw. rewrite divergence_unfold.
  destruct (pd.empty prev || pd.empty poly) eqn:He.
  { unfold raw_divergence. by rewrite inner_index_empty. }
  case_bool_decide as Hc.
  { unfold raw_divergence. by rewrite Hc. }
  cbv zeta. by rewrite bool_decide_eq_false_2 by lia.
Qed.

(** X10: the divergence runs over the dates the two series share, whatever
    the window; with a window above 1 it is a rolling mean that needs
    [max(1, window // 2)] positions, so its first [max(1, window // 2) - 1]
    entries are missing. *)
Theorem divergence_dates_and_warm_up (np_sqrt : value → value)
    (prev poly : Series) (window : Z) :
  let out := fragility.compute_polymarket_divergence np_sqrt prev poly window in
  pd.index out = pd.inner_index [prev; poly]
  ∧ ((1 < window)%Z →
     ∀ (i : nat) (it : date * value),
       (Z.of_nat i + 1 < Z.max 1 (window / 2))%Z →
       items out !! i = Some it → it.2 = NaN).
Proof.
  intros out. unfold out. rewrite divergence_unfold.
  destruct (pd.empty prev || pd.empty poly) eqn:He.
  { split; [by rewrite inner_index_empty|]. by intros _ i it _ ?. }
  case_bool_decide as Hc.
  { split; [by rewrite Hc|]. by intros _ i it _ ?. }
  cbv zeta. split.
  - case_bool_decide.
    + transitivity (pd.index (pd.rolling pd.mean_values window
                                (Z.max 1 (window / 2))
                                (mkSeries None (raw_divergence np_sqrt prev poly))));
        [done|].
      rewrite rolling_index. apply raw_divergence_index.
    + apply raw_divergence_index.
  - intros Hw i it Hi Hit. rewrite bool_decide_eq_true_2 in Hit by done.
    cbn [pd.rename items] in Hit. by eapply rolling_warm_up.
Qed.

Lemma divergence_without_smoothing_witness :
  items (fragility.compute_polymarket_divergence sqrt_floor ex_price ex_social 1)
  = raw_divergence sqrt_floor ex_price ex_social.
Proof.
  apply (divergence_without_smoothing sqrt_floor ex_price ex_social 1). lia.
Defined.

Lemma divergence_dates_and_warm_up_witness :
  (1 < 4)%Z
  ∧ pd.index (fragility.compute_polymarket_divergence sqrt_floor ex_price
                ex_social 4)
    = pd.inner_index [ex_price; ex_social]
  ∧ ∀ it, items (fragility.compute_polymarket_divergence sqrt_floor ex_price
                   ex_social 4) !! 0%nat = Some it →
          it.2 = NaN.
Proof.
  destruct (divergence_dates_and_warm_up sqrt_floor ex_price ex_social 4)
    as [Hidx Hwarm].
  split; [lia|]. split; [exact Hidx|].
  intros it. apply Hwarm; [lia|]. vm_compute. reflexivity.
Defined.

(** The divergence of the example series, standardised over their common
    dates 1, 2, 3 and not smoothed; smoothed over 4 dates, its first entry is
    missing. *)
Example divergence_of_examples :
  pd.index (fragility.compute_polymarket_divergence sqrt_floor ex_price ex_flat 1)
  = [1; 2; 3]%Z
  ∧ pd.values (fragility.compute_polymarket_divergence sqrt_floor ex_constant
                 ex_price 1)
    = [NaN; NaN].
Proof. split; compute_done. Qed.

(** ** Channels without entries, and the range of the combined sentiment *)

Lemma lookup_date_elem (d : date) (l : list (date * value)) :
  pd.lookup_date d l = NaN ∨ pd.lookup_date d l ∈ l.*2.
Proof.
  induction l as [|it l IH]; [by left|].
  cbn [pd.lookup_date]. rewrite fmap_cons. case_decide.
  - right. by left.
  - destruct IH as [?|?]; [by left|right]. by right.
Qed.

(** The entries of a channel once brought to the joint dates, filled with
    their mean and scaled. *)
Lemma filled_channel_values (s : Series) (joint : list date) (c : value) :
  pd.values (pd.map_values (fmul c)
               (pd.fillna (pd.reindex s joint) (pd.mean (pd.reindex s joint))))
  = map (λ d, fmul c (if isnan (pd.lookup_date d (items s))
                      then pd.mean_values
                             (map (λ d, pd.lookup_date d (items s)) joint)
                      else pd.lookup_date d (items s)))
        joint.
Proof.
  unfold pd.values, pd.map_values, pd.fillna, pd.map_values, pd.reindex,
    pd.mean, pd.values.
  cbn [items name]. rewrite fmap_snd_pair. by rewrite !map_map.
Qed.

(** The entries of the combined series are sums of an entry of each
    channel, filled and scaled. *)
Lemma combine_values (news social : Series) (w : value) (v : value) :
  let joint := pd.union_index (pd.index news) (pd.index social) in
  let filled_scaled s c :=
    pd.map_values (fmul c)
      (pd.fillna (pd.reindex s joint) (pd.mean (pd.reindex s joint))) in
  v ∈ pd.values (aggregation.combine_sentiment_scores news social w) →
  ∃ a b,
    v = fadd a b
    ∧ (a = NaN ∨ a ∈ pd.values (filled_scaled news w))
    ∧ (b = NaN ∨ b ∈ pd.values (filled_scaled social (fsub (Some 1) w))).
Proof.
  intros joint filled_scaled.
  unfold aggregation.combine_sentiment_scores. fold joint.
  fold (filled_scaled news w) (filled_scaled social (fsub (Some 1) w)).
  unfold pd.values at 1, pd.rename, pd.add. cbn [items].
  rewrite fmap_snd_pair.
  intros [d [-> _]]%list_elem_of_fmap.
  eexists _, _. split; [done|]. split; apply lookup_date_elem.
Qed.

Lemma fmul_nan_r (c : value) : fmul c NaN = NaN.
Proof. by destruct c. Qed.

Lemma filled_channel_all_missing (s : Series) (joint : list date) (c v : value) :
  (∀ v, v ∈ pd.values s → v = NaN) →
  v ∈ pd.values (pd.map_values (fmul c)
                   (pd.fillna (pd.reindex s joint) (pd.mean (pd.reindex s joint)))) →
  v = NaN.
Proof.
  intros Hall. rewrite filled_channel_values.
  intros [d [-> _]]%list_elem_of_fmap.
  assert (∀ d, pd.lookup_date d (items s) = NaN) as Hlook.
  { intros d'. destruct (lookup_date_elem d' (items s)) as [?|?]; [done|].
    by apply Hall. }
  rewrite Hlook. cbn [isnan].
  rewrite mean_values_no_defined; [apply fmul_nan_r|].
  apply dropna_all_nan. by intros v [d' [-> _]]%list_elem_of_fmap.
Qed.

(** X12: a channel without any defined entry (an empty series, as when no
    item was fetched, among them) does not leave the other channel alone:
    its gaps are filled with a missing mean, and every entry of the combined
    series is missing. *)
Theorem combine_with_missing_channel (news social : Series) (weight_news : value) :
  (∀ v, v ∈ pd.values news → v = NaN) ∨ (∀ v, v ∈ pd.values social → v = NaN) →
  ∀ v, v ∈ pd.values
             (aggregation.combine_sentiment_scores news social weight_news) →
       v = NaN.
Proof.
  intros Hmiss v (a & b & -> & Ha & Hb)%combine_values.
  destruct Hmiss as [Hn|Hs].
  - assert (a = NaN) as ->; [|done].
    destruct Ha as [?|Ha]; [done|]. by eapply filled_channel_all_missing.
  - assert (b = NaN) as ->; [|by destruct a].
    destruct Hb as [?|Hb]; [done|]. by eapply filled_channel_all_missing.
Qed.

Lemma qsum_lower (lo : Qc) (xs : list Qc) :
  (∀ x, x ∈ xs → lo ≤ x) →
  Qc_of_Z (Z.of_nat (length xs)) * lo ≤ pd.qsum xs.
Proof.
  induction xs as [|x xs IH]; intros Hall.
  - cbn [length pd.qsum foldr]. change (Z.of_nat 0) with 0%Z.
    rewrite Z2Qc_inj_0, !Qcmult_0_l. apply Qcle_refl.
  - cbn [pd.qsum foldr length]. rewrite of_nat_S. fold (pd.qsum xs).
    replace ((Qc_of_Z (Z.of_nat (length xs)) + 1) * lo)
      with (lo + Qc_of_Z (Z.of_nat (length xs)) * lo) by ring.
    apply Qcplus_le_compat; [apply Hall; by left|].
    apply IH. intros; apply Hall; by right.
Qed.

Lemma qsum_upper (hi : Qc) (xs : list Qc) :
  (∀ x, x ∈ xs → x ≤ hi) →
  pd.qsum xs ≤ Qc_of_Z (Z.of_nat (length xs)) * hi.
Proof.
  induction xs as [|x xs IH]; intros Hall.
  - cbn [length pd.qsum foldr]. change (Z.of_nat 0) with 0%Z.
    rewrite Z2Qc_inj_0, !Qcmult_0_l. apply Qcle_refl.
  - cbn [pd.qsum foldr length]. rewrite of_nat_S. fold (pd.qsum xs).
    replace ((Qc_of_Z (Z.of_nat (length xs)) + 1) * hi)
      with (hi + Qc_of_Z (Z.of_nat (length xs)) * hi) by ring.
    apply Qcplus_le_compat; [apply Hall; by left|].
    apply IH. intros; apply Hall; by right.
Qed.

(** A mean of defined entries: the sum over a positive count. *)
Lemma mean_values_defined (m : Qc) (l : list value) :
  pd.mean_values l = Some m →
  let n := Qc_of_Z (Z.of_nat (length (pd.dropna l))) in
  0 < n ∧ m = pd.qsum (pd.dropna l) * / n.
Proof.
  unfold pd.mean_values.
  destruct (pd.dropna l) as [|x xs] eqn:Hxs.
  { cbn [length]. unfold fdiv, of_nat, of_Z. change (Z.of_nat 0) with 0%Z.
    rewrite Z2Qc_inj_0. by rewrite decide_True. }
  cbn [length]. rewrite fdiv_of_nat_S. intros Hm%(inj Some). subst m.
  split; [|done]. rewrite <- Z2Qc_inj_0, <- Z2Qc_inj_lt. lia.
Qed.

Lemma mean_values_lower (lo m : Qc) (l : list value) :
  (∀ x, Some x ∈ l → lo ≤ x) → pd.mean_values l = Some m → lo ≤ m.
Proof.
  intros Hall [Hpos ->]%mean_values_defined.
  set (n := Qc_of_Z (Z.of_nat (length (pd.dropna l)))) in *.
  pose proof (Qclt_le_weak _ _ (Qcinv_pos n Hpos)) as Hinv.
  replace lo with (n * lo * / n) by (field; by apply Qclt_not_eq in Hpos).
  apply Qcmult_le_compat_r; [|done].
  apply qsum_lower. intros x Hx%elem_of_dropna. by apply Hall.
Qed.

Lemma mean_values_upper (hi m : Qc) (l : list value) :
  (∀ x, Some x ∈ l → x ≤ hi) → pd.mean_values l = Some m → m ≤ hi.
Proof.
  intros Hall [Hpos ->]%mean_values_defined.
  set (n := Qc_of_Z (Z.of_nat (length (pd.dropna l)))) in *.
  pose proof (Qclt_le_weak _ _ (Qcinv_pos n Hpos)) as Hinv.
  replace hi with (n * hi * / n) by (field; by apply Qclt_not_eq in Hpos).
  apply Qcmult_le_compat_r; [|done].
  apply qsum_upper. intros x Hx%elem_of_dropna. by apply Hall.
Qed.

Lemma mean_values_bounds (lo hi m : Qc) (l : list value) :
  (∀ x, Some x ∈ l → lo ≤ x ∧ x ≤ hi) →
  pd.mean_values l = Some m → lo ≤ m ∧ m ≤ hi.
Proof.
  intros Hall Hm. split.
  - apply (mean_values_lower lo m l); [|done]. intros x Hx. by apply Hall.
  - apply (mean_values_upper hi m l); [|done]. intros x Hx. by apply Hall.
Qed.

Lemma Qc_convex (w lo hi a b : Qc) :
  0 ≤ w → w ≤ 1 → lo ≤ a ∧ a ≤ hi → lo ≤ b ∧ b ≤ hi →
  lo ≤ w * a + (1 - w) * b ∧ w * a + (1 - w) * b ≤ hi.
Proof.
  intros Hw0 Hw1 [Hal Hah] [Hbl Hbh].
  assert (0 ≤ 1 - w) as Hw'.
  { apply Qcle_minus_iff in Hw1. by replace (1 - w) with (1 + - w) by ring. }
  split.
  - replace lo with (w * lo + (1 - w) * lo) by ring.
    apply Qcplus_le_compat.
    + rewrite (Qcmult_comm w lo), (Qcmult_comm w a). by apply Qcmult_le_compat_r.
    + rewrite (Qcmult_comm _ lo), (Qcmult_comm _ b). by apply Qcmult_le_compat_r.
  - replace hi with (w * hi + (1 - w) * hi) by ring.
    apply Qcplus_le_compat.
    + rewrite (Qcmult_comm w hi), (Qcmult_comm w a). by apply Qcmult_le_compat_r.
    + rewrite (Qcmult_comm _ hi), (Qcmult_comm _ b). by apply Qcmult_le_compat_r.
Qed.

Lemma filled_channel_bounds (s : Series) (joint : list date) (c lo hi x : Qc) :
  (∀ x, Some x ∈ pd.values s → lo ≤ x ∧ x ≤ hi) →
  Some x ∈ pd.values (pd.map_values (fmul (Some c))
                        (pd.fillna (pd.reindex s joint)
                                   (pd.mean (pd.reindex s joint)))) →
  ∃ y, x = c * y ∧ lo ≤ y ∧ y ≤ hi.
Proof.
  intros Hall. rewrite filled_channel_values.
  intros [d [Hx _]]%list_elem_of_fmap.
  assert (∀ d y, pd.lookup_date d (items s) = Some y → lo ≤ y ∧ y ≤ hi) as Hlook.
  { intros d' y Hy. apply Hall. rewrite <- Hy.
    destruct (lookup_date_elem d' (items s)) as [Hn|?]; [|done].
    by rewrite Hn in Hy. }
  destruct (pd.lookup_date d (items s)) as [y|] eqn:Hd; cbn [isnan] in Hx.
  - injection Hx as ->. exists y. split; [done|]. by apply (Hlook d).
  - destruct (pd.mean_values _) as [m|] eqn:Hm; [|done].
    injection Hx as ->. exists m. split; [done|].
    apply (mean_values_bounds lo hi m _) in Hm; [done|].
    intros y [d' [Hy _]]%list_elem_of_fmap. by apply (Hlook d').
Qed.

(** X13: with a weight between 0 and 1 the combined sentiment is a convex
    combination: where the defined entries of both channels lie in a range
    [lo, hi], so does every defined entry of the combined series. *)
Theorem combine_within_range (news social : Series) (w lo hi : Qc) :
  0 ≤ w → w ≤ 1 →
  (∀ x, Some x ∈ pd.values news → lo ≤ x ∧ x ≤ hi) →
  (∀ x, Some x ∈ pd.values social → lo ≤ x ∧ x ≤ hi) →
  ∀ x, Some x ∈ pd.values
                  (aggregation.combine_sentiment_scores news social (Some w)) →
       lo ≤ x ∧ x ≤ hi.
Proof.
  intros Hw0 Hw1 Hn Hs x (a & b & Hx & Ha & Hb)%combine_values.
  destruct a as [a|], b as [b|]; try done.
  injection Hx as ->.
  destruct Ha as [?|Ha]; [done|]. destruct Hb as [?|Hb]; [done|].
  apply (filled_channel_bounds news _ w lo hi a Hn) in Ha as (y & -> & Hy).
  change (fsub (Some 1) (Some w)) with (Some (1 - w)) in Hb.
  apply (filled_channel_bounds social _ (1 - w) lo hi b Hs) in Hb as (z & -> & Hz).
  by apply Qc_convex.
Qed.

Lemma combine_with_missing_channel_witness :
  pd.values (pd.Series_empty None) = []
  ∧ ∀ v, v ∈ pd.values
               (aggregation.combine_sentiment_scores (pd.Series_empty None)
                  ex_social aggregation.weight_news_default) →
         v = NaN.
Proof.
  split; [reflexivity|].
  apply (combine_with_missing_channel (pd.Series_empty None) ex_social
           aggregation.weight_news_default).
  left. intros v Hv. by apply elem_of_nil in Hv.
Defined.

Lemma combine_within_range_witness :
  0 ≤ Q2Qc 0.6 ∧ Q2Qc 0.6 ≤ 1
  ∧ ∀ x, Some x ∈ pd.values
                    (aggregation.combine_sentiment_scores ex_news ex_social
                       (Some (Q2Qc 0.6))) →
         0 ≤ x ∧ x ≤ 1.
Proof.
  assert (H0 : 0 ≤ Q2Qc 0.6) by compute_done.
  assert (H1 : Q2Qc 0.6 ≤ 1) by compute_done.
  split; [exact H0|]. split; [exact H1|].
  apply (combine_within_range ex_news ex_social (Q2Qc 0.6) 0 1).
  - exact H0.
  - exact H1.
  - intros x Hx. unfold ex_news, series_of, pd.values in Hx.
    cbn [map items fmap list_fmap option_fmap option_map fst snd] in Hx.
    repeat (apply elem_of_cons in Hx as [Hx|Hx]);
      [..|by apply elem_of_nil in Hx];
      first [discriminate | injection Hx as ->; compute_done].
  - intros x Hx. unfold ex_social, series_of, pd.values in Hx.
    cbn [map items fmap list_fmap option_fmap option_map fst snd] in Hx.
    repeat (apply elem_of_cons in Hx as [Hx|Hx]);
      [..|by apply elem_of_nil in Hx];
      first [discriminate | injection Hx as ->; compute_done].
Defined.

(** The social channel of the example with a news channel that has no
    entry. *)
Example combine_with_empty_news :
  pd.values (aggregation.combine_sentiment_scores (pd.Series_empty None)
               ex_social aggregation.weight_news_default)
  = [NaN; NaN; NaN].
Proof. compute_done. Qed.

(** ** The daily table *)

Lemma remove_dups_sorted (l : list Z) :
  StronglySorted Z.le l → StronglySorted Z.lt (remove_dups l).
Proof.
  induction 1 as [|x l Hl IH Hx]; [constructor|].
  cbn [remove_dups]. case_decide as Hin; [done|].
  constructor; [done|].
  rewrite Forall_forall in Hx |- *. intros y Hy.
  rewrite elem_of_remove_dups in Hy. specialize (Hx y Hy). assert (x ≠ y) by (by intros ->). lia.
Qed.

Lemma date_keys_sorted (l : list date) :
  StronglySorted Z.lt (aggregation.date_keys l).
Proof. apply remove_dups_sorted, StronglySorted_merge_sort; apply _. Qed.

Lemma elem_of_date_keys (d : date) (l : list date) :
  d ∈ aggregation.date_keys l ↔ d ∈ l.
Proof.
  unfold aggregation.date_keys.
  by rewrite elem_of_remove_dups, merge_sort_Permutation.
Qed.

Lemma elem_of_channel_keys (c : string) (l : list string) :
  c ∈ aggregation.channel_keys l ↔ c ∈ l.
Proof.
  unfold aggregation.channel_keys.
  by rewrite elem_of_remove_dups, merge_sort_Permutation.
Qed.

(** X14: from a table that has rows and the three columns, the daily table
    is made: it has one row per date of the items, in increasing order of
    the dates, and one column per channel of the items; each of its columns
    is therefore a series over a strictly increasing index, as
    [combine_sentiment_scores] takes them. *)
Theorem aggregate_daily_sentiment_by_date (df : ItemTable) (dates : list date)
    (channels : list string) (sentiments : list value) :
  aggregation.table_empty df = false →
  date_column df = Some dates →
  channel_column df = Some channels →
  sentiment_column df = Some sentiments →
  ∃ out,
    aggregation.aggregate_daily_sentiment df = Ok out
    ∧ StronglySorted Z.lt (rows out).*1
    ∧ (∀ d, d ∈ (rows out).*1 ↔ d ∈ dates)
    ∧ NoDup (columns out)
    ∧ (∀ c, Some c ∈ columns out ↔ c ∈ channels)
    ∧ (∀ r, r ∈ rows out → length r.2 = length (columns out))
    ∧ (∀ c, StronglySorted Z.lt (pd.index (pd.column out c))).
Proof.
  intros He Hd Hc Hs.
  exists (aggregation.grouped_pivot dates channels sentiments).
  assert ((rows (aggregation.grouped_pivot dates channels sentiments)).*1
          = aggregation.date_keys dates) as Hrows.
  { unfold aggregation.grouped_pivot. cbn [rows]. apply fmap_fst_pair. }
  split.
  { unfold aggregation.aggregate_daily_sentiment. rewrite He.
    rewrite bool_decide_eq_false_2.
    - by rewrite Hd, Hc, Hs.
    - intros Hne. apply Hne. unfold aggregation.column_set.
      rewrite Hd, Hc, Hs. set_solver. }
  split; [rewrite Hrows; apply date_keys_sorted|].
  split; [intros d; rewrite Hrows; apply elem_of_date_keys|].
  split.
  { unfold aggregation.grouped_pivot. cbn [columns].
    apply (NoDup_fmap_2 Some), NoDup_remove_dups. }
  split.
  { intros c. unfold aggregation.grouped_pivot. cbn [columns].
    rewrite <- elem_of_channel_keys. split.
    - by intros [c' [[= ->] ?]]%list_elem_of_fmap.
    - intros ?. apply list_elem_of_fmap. by exists c. }
  split.
  { intros r. unfold aggregation.grouped_pivot. cbn [rows columns].
    intros [d [-> _]]%list_elem_of_fmap. cbn [snd]. by rewrite !length_map. }
  intros c. rewrite column_index, Hrows. apply date_keys_sorted.
Qed.

Lemma aggregate_daily_sentiment_by_date_witness :
  ∃ out,
    aggregation.aggregate_daily_sentiment ex_scored = Ok out
    ∧ StronglySorted Z.lt (rows out).*1
    ∧ (∀ d, d ∈ (rows out).*1 ↔ d ∈ [2; 1; 2]%Z)
    ∧ NoDup (columns out)
    ∧ (∀ c, Some c ∈ columns out ↔ c ∈ ["news"; "social"; "news"])
    ∧ (∀ r, r ∈ rows out → length r.2 = length (columns out))
    ∧ (∀ c, StronglySorted Z.lt (pd.index (pd.column out c))).
Proof.
  apply (aggregate_daily_sentiment_by_date ex_scored [2; 1; 2]%Z
           ["news"; "social"; "news"] [fin 1; fin 0.5; fin 0]).
  - vm_compute; reflexivity.
  - reflexivity.
  - reflexivity.
  - reflexivity.
Defined.

(** ** The fragility score *)

Lemma rolling_validate_ok (window : Z) :
  (0 ≤ window)%Z → pd.rolling_validate window (Z.quot window 2) = Ok ().
Proof.
  intros Hw. unfold pd.rolling_validate.
  pose proof (Z.quot_pos window 2 Hw ltac:(lia)).
  assert (Z.quot window 2 ≤ window)%Z.
  { destruct (decide (window = 0)%Z) as [->|]; [done|].
    apply Z.lt_le_incl, Z.quot_lt; lia. }
  by rewrite !bool_decide_eq_false_2 by lia.
Qed.

Lemma rolling_columns_warm_up (agg : list value → value) (window min_periods : Z)
    (df : DataFrame) (i : nat) (r : date * list value) (v : value) :
  (Z.of_nat i + 1 < min_periods)%Z →
  rows (pd.rolling_columns agg window min_periods df) !! i = Some r →
  v ∈ r.2 → v = NaN.
Proof.
  intros Hi. unfold pd.rolling_columns. cbn [rows].
  rewrite list_lookup_imap.
  destruct (rows df !! i) as [r0|]; [|done]. intros [= <-]. cbn [snd].
  intros (k & y & -> & _)%elem_of_lookup_imap.
  rewrite bool_decide_eq_false_2; [done|].
  pose proof (dropna_length (pd.window_at window (pd.column_at df k) i)).
  pose proof (window_at_length window (pd.column_at df k) i). lia.
Qed.

Lemma rolling_std_nonneg (np_sqrt : value → value) (window min_periods : Z)
    (df : DataFrame) (r : date * list value) (x : Qc) :
  (∀ v y, np_sqrt v = Some y → 0 ≤ y) →
  r ∈ rows (pd.rolling_columns (pd.std_values np_sqrt) window min_periods df) →
  Some x ∈ r.2 → 0 ≤ x.
Proof.
  intros Hsqrt. unfold pd.rolling_columns. cbn [rows].
  intros (i & r0 & -> & _)%elem_of_lookup_imap. cbn [snd].
  intros (k & y & Hx & _)%elem_of_lookup_imap.
  destruct (bool_decide _); [|done]. symmetry in Hx. by eapply Hsqrt.
Qed.

Lemma sqrt_floor_nonneg (v : value) (y : Qc) : sqrt_floor v = Some y → 0 ≤ y.
Proof.
  destruct v as [q|]; [|done]. unfold sqrt_floor.
  case_decide; [done|]. intros Hy%(inj Some). subst y.
  unfold Qcle. cbn [this Q2Qc]. rewrite !Qred_correct.
  unfold Qle. cbn [Qnum Qden].
  pose proof (Z.sqrt_nonneg (Qnum q * QDen q * 2 ^ 64)). lia.
Qed.

(** X15: for a window that is not negative, [bias_fragility] returns a
    series named [bias_fragility] over the union of the dates of the two
    scores; no entry of it is negative (the square root giving no negative
    number), and its first [int(window * 0.5) - 1] entries are missing. *)
Theorem bias_fragility_nonnegative (np_sqrt : value → value)
    (price_score sentiment_score : Series) (window : Z) :
  (∀ v y, np_sqrt v = Some y → 0 ≤ y) →
  (0 ≤ window)%Z →
  ∃ out,
    fragility.bias_fragility np_sqrt price_score sentiment_score window = Ok out
    ∧ name out = Some "bias_fragility"
    ∧ pd.index out
      = pd.union_index (pd.index price_score) (pd.index sentiment_score)
    ∧ (∀ x, Some x ∈ pd.values out → 0 ≤ x)
    ∧ (∀ (i : nat) (it : date * value),
         (Z.of_nat i + 1 < Z.quot window 2)%Z →
         items out !! i = Some it → it.2 = NaN).
Proof.
  intros Hsqrt Hw. unfold fragility.bias_fragility.
  rewrite rolling_validate_ok by done.
  eexists. split; [reflexivity|]. split; [done|].
  set (z := pd.by_column _ _).
  set (fr := pd.rolling_columns _ _ _ z).
  split; [|split].
  - unfold pd.index, pd.rename, pd.mean_axis1. cbn [items].
    rewrite <- list_fmap_compose.
    transitivity ((rows fr).*1); [done|].
    unfold fr, pd.rolling_columns. cbn [rows].
    rewrite fmap_imap.
    transitivity ((rows z).*1).
    { apply list_eq. intros i. rewrite list_lookup_imap, list_lookup_fmap.
      by destruct (rows z !! i). }
    unfold z, pd.by_column. cbn [rows]. rewrite <- list_fmap_compose.
    unfold pd.concat_outer. cbn [rows]. rewrite <- list_fmap_compose.
    cbn [pd.outer_index foldl]. apply list_fmap_id.
  - intros x. unfold pd.values, pd.rename, pd.mean_axis1. cbn [items].
    rewrite <- list_fmap_compose.
    intros [r [Hx Hr]]%list_elem_of_fmap. cbn in Hx. symmetry in Hx.
    apply (mean_values_lower 0 x r.2); [|done].
    intros y Hy. by eapply rolling_std_nonneg.
  - intros i it Hi. unfold pd.rename, pd.mean_axis1. cbn [items].
    rewrite list_lookup_fmap.
    destruct (rows fr !! i) as [r|] eqn:Hr; [|done]. intros [= <-]. cbn [snd].
    apply mean_values_no_defined, dropna_all_nan.
    intros v Hv. by eapply rolling_columns_warm_up.
Qed.

(** X16: [bias_fragility] raises a [ValueError] on a negative window:
    [rolling] refuses it. *)
Theorem bias_fragility_refuses_negative_window (np_sqrt : value → value)
    (price_score sentiment_score : Series) (window : Z) :
  (window < 0)%Z →
  ∃ msg,
    fragility.bias_fragility np_sqrt price_score sentiment_score window
    = Raise (ValueError msg ∅).
Proof.
  intros Hw. unfold fragility.bias_fragility, pd.rolling_validate.
  case_bool_decide; [by eexists|].
  case_bool_decide; [by eexists|].
  rewrite bool_decide_eq_true_2 by done. by eexists.
Qed.

Lemma bias_fragility_nonnegative_witness :
  ∃ out,
    fragility.bias_fragility sqrt_floor ex_price ex_social 4 = Ok out
    ∧ name out = Some "bias_fragility"
    ∧ pd.index out = pd.union_index (pd.index ex_price) (pd.index ex_social)
    ∧ (∀ x, Some x ∈ pd.values out → 0 ≤ x)
    ∧ (∀ (i : nat) (it : date * value),
         (Z.of_nat i + 1 < Z.quot 4 2)%Z →
         items out !! i = Some it → it.2 = NaN).
Proof.
  apply (bias_fragility_nonnegative sqrt_floor ex_price ex_social 4).
  - apply sqrt_floor_nonneg.
  - lia.
Defined.

Lemma bias_fragility_refuses_negative_window_witness :
  ∃ msg,
    fragility.bias_fragility sqrt_floor ex_price ex_social (-1)
    = Raise (ValueError msg ∅).
Proof.
  apply (bias_fragility_refuses_negative_window sqrt_floor ex_price ex_social (-1)).
  lia.
Defined.

(** ** The rows of the aligned frame *)







(** The rows of the example: the inner join has the dates 1, 2, 3, and the
    frame keeps the three of them, the second with its price entry missing;
    where both components lack the entry of date 2, the row is dropped. *)
Example aligned_rows_of_example :
  rows (prevailing_bias_model.align_and_standardize sqrt_floor
          (Some ex_price) (Some ex_flat) None None None)
  = [(1%Z, [fin (-1); Some 0]); (2%Z, [NaN; Some 0]); (3%Z, [fin 1; Some 0])]
  ∧ rows (prevailing_bias_model.align_and_standardize sqrt_floor
            (Some ex_price)
            (Some (series_of [(1%Z, Some 2%Q); (2%Z, None); (3%Z, Some 4%Q)]))
            None None None)
    = [(1%Z, [fin (-1); fin (-1)]); (3%Z, [fin 1; fin 1])].
Proof. split; compute_done. Qed.
